(** * PromptPlace: the HTML surgery of [llm_editor.py]

    A shallow embedding of the three pure functions of [src/llm_editor.py]
    ([extract_html_from_llm_response], [add_form_back], [extract_form]) and of
    the library operations they call: Python's [str] methods, the backtracking
    regular expressions of [re], and the tree operations of BeautifulSoup.

    Characters are code points below 256; a Python [str] is a [string]. *)

From Stdlib Require Import String Ascii List Bool Arith Lia.
Import ListNotations.
Open Scope string_scope.

(** ** Outcomes of a Python call *)

Inductive exn : Type :=
| HTMLExtractionError
| TypeError
| AttributeError.

Inductive outcome (A : Type) : Type :=
| Returns (a : A)
| Raises (e : exn).
Arguments Returns {A} a.
Arguments Raises {A} e.

(** ** Python strings *)

Module Str.

(** [str.isspace] on one character ([Py_UNICODE_ISSPACE], which is also the
    class [\s] of [re] on [str] patterns), for code points below 256. *)
Definition isspace (c : ascii) : bool :=
  let n := nat_of_ascii c in
  (((9 <=? n) && (n <=? 13)) || ((28 <=? n) && (n <=? 31))
   || (n =? 32) || (n =? 133) || (n =? 160))%nat.

Fixpoint lstrip (s : string) : string :=
  match s with
  | String c s' => if isspace c then lstrip s' else s
  | EmptyString => EmptyString
  end.

Fixpoint rstrip (s : string) : string :=
  match s with
  | String c s' =>
      match rstrip s' with
      | EmptyString => if isspace c then EmptyString else String c EmptyString
      | r => String c r
      end
  | EmptyString => EmptyString
  end.

(** [s.strip()] *)
Definition strip (s : string) : string := rstrip (lstrip s).

(** [Some rest] when [s = p ++ rest]. *)
Fixpoint drop_prefix (p s : string) : option string :=
  match p with
  | EmptyString => Some s
  | String a p' =>
      match s with
      | String b s' => if Ascii.eqb a b then drop_prefix p' s' else None
      | EmptyString => None
      end
  end.

(** [s.startswith(p)] *)
Definition startswith (p s : string) : bool :=
  match drop_prefix p s with Some _ => true | None => false end.

(** [p in s] *)
Fixpoint occurs (p s : string) : bool :=
  startswith p s ||
  match s with
  | String _ s' => occurs p s'
  | EmptyString => false
  end.

(** [s.replace(old, new)] for a non-empty [old]: the occurrences are found
    from the left and do not overlap. [skip] counts the characters of an
    occurrence that are still to be dropped. *)
Fixpoint replace_from (old new : string) (skip : nat) (s : string) : string :=
  match s with
  | EmptyString => EmptyString
  | String c s' =>
      match skip with
      | S k => replace_from old new k s'
      | O =>
          if startswith old s
          then new ++ replace_from old new (String.length old - 1) s'
          else String c (replace_from old new 0 s')
      end
  end.

Definition replace (old new s : string) : string := replace_from old new 0 s.

(** Only white space. *)
Fixpoint all_space (s : string) : bool :=
  match s with
  | EmptyString => true
  | String c s' => isspace c && all_space s'
  end.

(** No white space. *)
Fixpoint no_space (s : string) : bool :=
  match s with
  | EmptyString => true
  | String c s' => negb (isspace c) && no_space s'
  end.

(** [old] and [h] differ at a place that both have. *)
Fixpoint mismatch (old h : string) : bool :=
  match old, h with
  | String a old', String b h' => negb (Ascii.eqb a b) || mismatch old' h'
  | _, _ => false
  end.

(** No occurrence of [old] can begin inside [h], whatever follows [h]. *)
Fixpoint clear_of (old h : string) : bool :=
  match h with
  | EmptyString => true
  | String _ h' => mismatch old h && clear_of old h'
  end.

End Str.

(** ** Regular expressions: the fragment of [re] that [html_pattern] uses *)

Module Re.

Inductive regex : Type :=
| Lit (l : string)                    (* a literal *)
| Opt (r : regex)                     (* (?:r)?  greedy *)
| Star (cls : ascii -> bool)          (* cls*    greedy *)
| StarLazy (cls : ascii -> bool)      (* cls*?   lazy *)
| Group (r : regex)                   (* ( r )   the capturing group *)
| Seq (r1 r2 : regex).

Section Matcher.
Context {R : Type}.

(** Greedy repetition: the longest run first, one character given back at
    a time when the continuation fails. *)
Fixpoint star_greedy (cls : ascii -> bool) (s : string)
         (k : string -> option R) : option R :=
  match s with
  | String c s' =>
      if cls c
      then match star_greedy cls s' k with
           | Some r => Some r
           | None => k s
           end
      else k s
  | EmptyString => k s
  end.

(** Lazy repetition: the empty run first, one more character at a time. *)
Fixpoint star_lazy (cls : ascii -> bool) (s : string)
         (k : string -> option R) : option R :=
  match k s with
  | Some r => Some r
  | None =>
      match s with
      | String c s' => if cls c then star_lazy cls s' k else None
      | EmptyString => None
      end
  end.

(** What [s] has lost when [s'] is what is left of it. *)
Definition consumed (s s' : string) : string :=
  substring 0 (String.length s - String.length s') s.

(** Backtracking match of [r] at the head of [s]; [g] is the text of the
    capturing group so far, [k] the rest of the pattern. *)
Fixpoint rmatch (r : regex) (s : string) (g : option string)
         (k : string -> option string -> option R) : option R :=
  match r with
  | Lit l =>
      match Str.drop_prefix l s with
      | Some s' => k s' g
      | None => None
      end
  | Opt r' =>
      match rmatch r' s g k with
      | Some x => Some x
      | None => k s g
      end
  | Star cls => star_greedy cls s (fun s' => k s' g)
  | StarLazy cls => star_lazy cls s (fun s' => k s' g)
  | Group r' => rmatch r' s g (fun s' _ => k s' (Some (consumed s s')))
  | Seq r1 r2 => rmatch r1 s g (fun s' g' => rmatch r2 s' g' k)
  end.
End Matcher.

(** A match at the head of [s]: the group's text ([""] when the group took
    no part, as [findall] reports it) and the rest of the input. *)
Definition match_here (r : regex) (s : string) : option (string * string) :=
  rmatch r s None
         (fun s' g => Some (match g with Some x => x | None => EmptyString end, s')).

(** The leftmost match. *)
Fixpoint search (r : regex) (s : string) : option (string * string) :=
  match match_here r s with
  | Some m => Some m
  | None =>
      match s with
      | String _ s' => search r s'
      | EmptyString => None
      end
  end.

(** [r.findall(s)] for a pattern with one group: the group of every match,
    the scan resuming where the last match ended (one character further
    after an empty match). *)
Fixpoint findall_fuel (fuel : nat) (r : regex) (s : string) : list string :=
  match fuel with
  | O => []
  | S fuel' =>
      match search r s with
      | None => []
      | Some (g, rest) =>
          g :: (if (String.length rest <? String.length s)%nat
                then findall_fuel fuel' r rest
                else match rest with
                     | String _ rest' => findall_fuel fuel' r rest'
                     | EmptyString => []
                     end)
      end
  end.

Definition findall (r : regex) (s : string) : list string :=
  findall_fuel (S (String.length s)) r s.

Definition any_char (_ : ascii) : bool := true.

End Re.

(** [html_pattern = re.compile(r'```(?:html)?\s*([\s\S]*?)\s*```')] *)
Definition html_pattern : Re.regex :=
  Re.Seq (Re.Lit "```")
    (Re.Seq (Re.Opt (Re.Lit "html"))
       (Re.Seq (Re.Star Str.isspace)
          (Re.Seq (Re.Group (Re.StarLazy Re.any_char))
             (Re.Seq (Re.Star Str.isspace) (Re.Lit "```"))))).

Definition nl : string := String (ascii_of_nat 10) EmptyString.
Definition dq : string := String (ascii_of_nat 34) EmptyString.

(** ** The parts of a match of [html_pattern] *)

Module Fence.
Import Str Re.

Definition fence : string := "```".

(** The end of a block: white space, then the closing fence. *)
Definition closer {R : Type} (k : string -> option R) (s : string) : option R :=
  star_greedy isspace s
    (fun s3 => match drop_prefix fence s3 with
               | Some s4 => k s4
               | None => None
               end).

Definition final (s' : string) (g : option string) : option (string * string) :=
  Some (match g with Some x => x | None => EmptyString end, s').

(** What follows the optional language word: the white space, the group,
    the end of the block. *)
Definition block_tail (s : string) : option (string * string) :=
  star_greedy isspace s
    (fun s1 => star_lazy any_char s1
       (fun s2 => closer (fun s4 => final s4 (Some (consumed s1 s2))) s2)).

(** A text holds a fenced block when a fence follows a fence. *)
Definition has_fence (text : string) : Prop :=
  exists pre mid post, text = pre ++ fence ++ mid ++ fence ++ post.

End Fence.

(** ** BeautifulSoup: the tree and the operations the program calls *)

Module Soup.

Definition attr : Type := (string * string)%type.

(** A page element: a [Tag] with its attributes and contents, or a string
    of one of the string classes. *)
#[warnings="-register-all"]
Inductive node : Type :=
| Tag (name : string) (attrs : list attr) (contents : list node)
| NavigableString (s : string)
| Comment (s : string)
| Doctype (s : string).

(** A [BeautifulSoup] object is the nameless root: it is given by its
    contents. *)
Definition soup : Type := list node.

(** A reference to an element of a tree: the indices of the children to go
    through from the root. [[]] is the root object itself. *)
Definition path : Type := list nat.

(** *** Searching *)

(** Document order over the elements of [l], the [i]-th child onwards. *)
Definition walk (f : node -> list path) : nat -> list node -> list path :=
  fix walk (i : nat) (l : list node) : list path :=
    match l with
    | [] => []
    | c :: l' => (map (cons i) (f c) ++ walk (S i) l')%list
    end.

(** The tags that [m] accepts among [n] and its descendants, in document
    order; [[]] is [n] itself. *)
Fixpoint find_all_node (m : string -> list attr -> bool) (n : node) : list path :=
  match n with
  | Tag nm ats cs =>
      ((if m nm ats then [[]] else []) ++ walk (find_all_node m) 0 cs)%list
  | _ => []
  end.

(** [tag.find_all(...)]: the descendants of a tag (or of the root) with
    contents [l]. *)
Definition find_all (m : string -> list attr -> bool) (l : list node) : list path :=
  walk (find_all_node m) 0 l.

(** [tag.find(...)] *)
Definition find (m : string -> list attr -> bool) (l : list node) : option path :=
  hd_error (find_all m l).

(** [find_all(name)] and [find_all([name, ...])] *)
Definition named (names : list string) (nm : string) (_ : list attr) : bool :=
  existsb (String.eqb nm) names.

(** [find()] with no argument: any tag. *)
Definition any_tag (_ : string) (_ : list attr) : bool := true.

Fixpoint get_attr (k : string) (ats : list attr) : option string :=
  match ats with
  | [] => None
  | (k', v) :: ats' => if String.eqb k k' then Some v else get_attr k ats'
  end.

(** [find_all(name, {k: v})] *)
Definition named_with (name k v : string) (nm : string) (ats : list attr) : bool :=
  String.eqb nm name &&
  match get_attr k ats with
  | Some v' => String.eqb v' v
  | None => false
  end.

(** *** Following a reference *)

Definition contents_of (n : node) : option (list node) :=
  match n with
  | Tag _ _ cs => Some cs
  | _ => None
  end.

(** The contents of the tag that [p] refers to. *)
Fixpoint descend (l : list node) (p : path) : option (list node) :=
  match p with
  | [] => Some l
  | i :: p' =>
      match nth_error l i with
      | Some (Tag _ _ cs) => descend cs p'
      | _ => None
      end
  end.

(** The element that [p] refers to (none for the root). *)
Fixpoint get (l : list node) (p : path) : option node :=
  match p with
  | [] => None
  | [i] => nth_error l i
  | i :: p' =>
      match nth_error l i with
      | Some (Tag _ _ cs) => get cs p'
      | _ => None
      end
  end.

(** [element.parent] *)
Definition parent (p : path) : path := removelast p.

(** *** Changing a tree *)

Fixpoint update_nth {A : Type} (i : nat) (f : A -> A) (l : list A) : list A :=
  match l, i with
  | [], _ => []
  | x :: l', O => f x :: l'
  | x :: l', S j => x :: update_nth j f l'
  end.

Fixpoint remove_nth {A : Type} (i : nat) (l : list A) : list A :=
  match l, i with
  | [], _ => []
  | _ :: l', O => l'
  | x :: l', S j => x :: remove_nth j l'
  end.

(** The tree in which the contents [cs] of the tag at [p] have become
    [g cs]. *)
Fixpoint update_contents (g : list node -> list node) (p : path) (l : list node)
  : list node :=
  match p with
  | [] => g l
  | i :: p' =>
      update_nth i
        (fun n => match n with
                  | Tag nm ats cs => Tag nm ats (update_contents g p' cs)
                  | other => other
                  end) l
  end.

(** [tag.insert(0, new)]. A [BeautifulSoup] object is inserted child by
    child, so [new] is a list. *)
Definition insert_first (new : list node) (p : path) (l : list node) : list node :=
  update_contents (fun cs => (new ++ cs)%list) p l.

(** [tag.append(new)] *)
Definition append (new : list node) (p : path) (l : list node) : list node :=
  update_contents (fun cs => (cs ++ new)%list) p l.

(** [element.extract()]: the element leaves its parent's contents; the
    root has no parent and stays. *)
Definition extract (p : path) (l : list node) : list node :=
  match p with
  | [] => l
  | _ => update_contents (remove_nth (last p 0)) (parent p) l
  end.

(** *** Output: [str(tag)] with the default (minimal) formatter *)

Definition amp : ascii := ascii_of_nat 38.
Definition lt : ascii := ascii_of_nat 60.
Definition gt : ascii := ascii_of_nat 62.
Definition quot : ascii := ascii_of_nat 34.
Definition apos : ascii := ascii_of_nat 39.

(** [EntitySubstitution.substitute_xml] *)
Fixpoint substitute_xml (s : string) : string :=
  match s with
  | EmptyString => EmptyString
  | String c s' =>
      (if Ascii.eqb c amp then "&amp;"
       else if Ascii.eqb c lt then "&lt;"
       else if Ascii.eqb c gt then "&gt;"
       else String c EmptyString) ++ substitute_xml s'
  end.

Fixpoint has_char (c : ascii) (s : string) : bool :=
  match s with
  | EmptyString => false
  | String c' s' => Ascii.eqb c c' || has_char c s'
  end.

Fixpoint quote_escape (s : string) : string :=
  match s with
  | EmptyString => EmptyString
  | String c s' =>
      (if Ascii.eqb c quot then "&quot;" else String c EmptyString) ++ quote_escape s'
  end.

(** [EntitySubstitution.quoted_attribute_value] *)
Definition quoted_attribute_value (v : string) : string :=
  if has_char quot v
  then if has_char apos v
       then dq ++ quote_escape v ++ dq
       else String apos v ++ String apos EmptyString
  else dq ++ v ++ dq.

Definition decode_attr (a : attr) : string :=
  " " ++ fst a ++ "=" ++ quoted_attribute_value (substitute_xml (snd a)).

(** [a] goes in before the first attribute whose name is greater. *)
Fixpoint insert_attr (a : attr) (l : list attr) : list attr :=
  match l with
  | [] => [a]
  | b :: l' =>
      if String.ltb (fst a) (fst b) then a :: l else b :: insert_attr a l'
  end.

(** [Formatter.attributes], [sorted(tag.attrs.items())]: the attributes of
    a tag are written sorted by name (the names of a tag are distinct). *)
Definition sorted_attrs (ats : list attr) : list attr :=
  fold_left (fun acc a => insert_attr a acc) ats [].

Definition decode_attrs (ats : list attr) : string :=
  String.concat EmptyString (map decode_attr (sorted_attrs ats)).

(** [HTMLTreeBuilder.empty_element_tags] *)
Definition empty_element_tags : list string :=
  ["area"; "base"; "br"; "col"; "embed"; "hr"; "img"; "input"; "keygen";
   "link"; "menuitem"; "meta"; "param"; "source"; "track"; "wbr";
   "basefont"; "bgsound"; "command"; "frame"; "image"; "isindex";
   "nextid"; "spacer"].

Definition can_be_empty_element (nm : string) : bool :=
  existsb (String.eqb nm) empty_element_tags.

(** [HTMLFormatter.cdata_containing_tags] *)
Definition cdata_containing (nm : string) : bool :=
  String.eqb nm "script" || String.eqb nm "style".

(** [raw] tells that the parent is a tag whose strings go out as they are. *)
Fixpoint decode (raw : bool) (n : node) : string :=
  match n with
  | Tag nm ats cs =>
      match cs with
      | [] =>
          if can_be_empty_element nm
          then "<" ++ nm ++ decode_attrs ats ++ "/>"
          else "<" ++ nm ++ decode_attrs ats ++ "></" ++ nm ++ ">"
      | _ =>
          "<" ++ nm ++ decode_attrs ats ++ ">"
          ++ String.concat EmptyString (map (decode (cdata_containing nm)) cs)
          ++ "</" ++ nm ++ ">"
      end
  | NavigableString s => if raw then s else substitute_xml s
  | Comment s => "<!--" ++ s ++ "-->"
  | Doctype s => "<!DOCTYPE " ++ s ++ ">" ++ nl
  end.

(** [str(tag)] *)
Definition to_string (n : node) : string := decode false n.

(** [str(soup)] *)
Definition soup_to_string (l : list node) : string :=
  String.concat EmptyString (map to_string l).

(** The markup of a run of elements. *)
Definition decode_list (raw : bool) (l : list node) : string :=
  String.concat EmptyString (map (decode raw) l).

End Soup.

(** ** Elements with an identity

    [find_all] hands out references to tag objects, and [append] moves the
    object it is given from wherever it stands by then. [obj] is a tree whose
    tags remember where [find_all] met them. *)

Module Obj.
Import Soup.

#[warnings="-register-all"]
Inductive obj : Type :=
| OTag (origin : path) (name : string) (attrs : list attr) (contents : list obj)
| OString (s : string)
| OComment (s : string)
| ODoctype (s : string).

Definition mapi {A B : Type} (f : nat -> A -> B) : nat -> list A -> list B :=
  fix mapi (i : nat) (l : list A) : list B :=
    match l with
    | [] => []
    | x :: l' => f i x :: mapi (S i) l'
    end.

(** The tree of objects of a parsed tree: the tag at [p] gets origin [p]. *)
Fixpoint label_node (origin : path) (n : node) : obj :=
  match n with
  | Tag nm ats cs =>
      OTag origin nm ats (mapi (fun i => label_node (origin ++ [i])%list) 0 cs)
  | NavigableString s => OString s
  | Comment s => OComment s
  | Doctype s => ODoctype s
  end.

Definition label (l : list node) : list obj :=
  mapi (fun i => label_node [i]) 0 l.

Fixpoint erase (o : obj) : node :=
  match o with
  | OTag _ nm ats cs => Tag nm ats (map erase cs)
  | OString s => NavigableString s
  | OComment s => Comment s
  | ODoctype s => Doctype s
  end.

Definition path_eqb (p q : path) : bool :=
  if list_eq_dec Nat.eq_dec p q then true else false.

Definition is_obj (id : path) (o : obj) : bool :=
  match o with
  | OTag p _ _ _ => path_eqb p id
  | _ => false
  end.

Definition first_some {A : Type} (l : list (option A)) : option A :=
  fold_right (fun x r => match x with Some _ => x | None => r end) None l.

(** The object [id], wherever it stands below [o] (or [o] itself). *)
Fixpoint lookup_obj (id : path) (o : obj) : option obj :=
  match o with
  | OTag p _ _ cs =>
      if path_eqb p id then Some o else first_some (map (lookup_obj id) cs)
  | _ => None
  end.

Definition lookup (id : path) (l : list obj) : option obj :=
  first_some (map (lookup_obj id) l).

(** [o] once the object [id] has left the contents of its parent. *)
Fixpoint without_obj (id : path) (o : obj) : obj :=
  match o with
  | OTag p nm ats cs =>
      OTag p nm ats (filter (fun c => negb (is_obj id c)) (map (without_obj id) cs))
  | other => other
  end.

Definition without (id : path) (l : list obj) : list obj :=
  filter (fun c => negb (is_obj id c)) (map (without_obj id) l).

(** [body.append(tag)] for the object [id]: [moved] is what has been
    appended to the body so far, [rest] the tree the tags come from. The
    object is taken from where it stands, in either, and goes last. *)
Definition move (st : list obj * list obj) (id : path) : list obj * list obj :=
  let '(moved, rest) := st in
  match lookup id (moved ++ rest) with
  | Some t => ((without id moved ++ [t])%list, without id rest)
  | None => st
  end.

End Obj.

(** ** Counting the copies of an element *)

Module Count.
Import Soup.

Definition attr_eqb (a b : attr) : bool :=
  String.eqb (fst a) (fst b) && String.eqb (snd a) (snd b).

Definition list_eqb {A : Type} (eqb : A -> A -> bool)
  : list A -> list A -> bool :=
  fix list_eqb (l1 l2 : list A) : bool :=
    match l1, l2 with
    | [], [] => true
    | x :: l1', y :: l2' => eqb x y && list_eqb l1' l2'
    | _, _ => false
    end.

Fixpoint node_eqb (a b : node) : bool :=
  match a, b with
  | Tag n1 a1 c1, Tag n2 a2 c2 =>
      String.eqb n1 n2 && list_eqb attr_eqb a1 a2 && list_eqb node_eqb c1 c2
  | NavigableString s1, NavigableString s2 => String.eqb s1 s2
  | Comment s1, Comment s2 => String.eqb s1 s2
  | Doctype s1, Doctype s2 => String.eqb s1 s2
  | _, _ => false
  end.

(** The elements of the tree below [n], [n] included, that are [f]. *)
Fixpoint count_in (f n : node) : nat :=
  (if node_eqb n f then 1 else 0) +
  match n with
  | Tag _ _ cs => list_sum (map (count_in f) cs)
  | _ => 0
  end.

Definition count (f : node) (l : list node) : nat :=
  list_sum (map (count_in f) l).

Fixpoint size (n : node) : nat :=
  match n with
  | Tag _ _ cs => S (list_sum (map size cs))
  | _ => 1
  end.

Section NodeInd.
Variable P : node -> Prop.
Hypothesis HTag : forall nm ats cs, Forall P cs -> P (Tag nm ats cs).
Hypothesis HStr : forall s, P (NavigableString s).
Hypothesis HComment : forall s, P (Comment s).
Hypothesis HDoctype : forall s, P (Doctype s).

Fixpoint node_ind' (n : node) : P n :=
  match n with
  | Tag nm ats cs =>
      HTag nm ats cs
        ((fix all (l : list node) : Forall P l :=
            match l with
            | [] => Forall_nil P
            | x :: l' => Forall_cons x (node_ind' x) (all l')
            end) cs)
  | NavigableString s => HStr s
  | Comment s => HComment s
  | Doctype s => HDoctype s
  end.
End NodeInd.

End Count.

(** ** What the recovery loop leaves in the body *)

Module Recovery.
Import Soup Obj.

Section Closed.
Variable m : string -> list attr -> bool.

Definition matches (n : node) : bool :=
  match n with
  | Tag nm ats _ => m nm ats
  | _ => false
  end.

(** [n] without the tags below it that [m] accepts. *)
Fixpoint prune (n : node) : node :=
  match n with
  | Tag nm ats cs =>
      Tag nm ats (flat_map (fun c => if matches c then [] else [prune c]) cs)
  | other => other
  end.

(** The tags that [m] accepts among [n] and its descendants, in document
    order, each without the accepted tags below it. *)
Fixpoint collect_node (n : node) : list node :=
  match n with
  | Tag nm ats cs =>
      ((if m nm ats then [prune n] else []) ++ flat_map collect_node cs)%list
  | _ => []
  end.

Definition collect (l : list node) : list node := flat_map collect_node l.

(** The same on objects. *)
Definition omatches (o : obj) : bool :=
  match o with
  | OTag _ nm ats _ => m nm ats
  | _ => false
  end.

Fixpoint oprune (o : obj) : obj :=
  match o with
  | OTag id nm ats cs =>
      OTag id nm ats (flat_map (fun c => if omatches c then [] else [oprune c]) cs)
  | other => other
  end.

Definition oprune_here (o : obj) : list obj :=
  if omatches o then [] else [oprune o].

Definition oprune_list (l : list obj) : list obj := flat_map oprune_here l.

Fixpoint ocollect_node (o : obj) : list obj :=
  match o with
  | OTag id nm ats cs =>
      ((if m nm ats then [oprune o] else []) ++ flat_map ocollect_node cs)%list
  | _ => []
  end.

Definition ocollect (l : list obj) : list obj := flat_map ocollect_node l.

(** The origins of the accepted tags, in document order. *)
Fixpoint oids_node (o : obj) : list path :=
  match o with
  | OTag id nm ats cs =>
      ((if m nm ats then [id] else []) ++ flat_map oids_node cs)%list
  | _ => []
  end.

Definition oids (l : list obj) : list path := flat_map oids_node l.
End Closed.

(** The origins of all the tags. *)
Fixpoint all_ids_node (o : obj) : list path :=
  match o with
  | OTag id _ _ cs => id :: flat_map all_ids_node cs
  | _ => []
  end.

Definition all_ids (l : list obj) : list path := flat_map all_ids_node l.

(** A state of the loop with a place left open in it. *)
Inductive ctx : Type :=
| Rest (moved l r : list obj)
| Moved (l r rest : list obj)
| Inside (k : ctx) (id : path) (nm : string) (ats : list attr) (l r : list obj).

Fixpoint fill (k : ctx) (x : list obj) : list obj * list obj :=
  match k with
  | Rest moved l r => (moved, l ++ x ++ r)%list
  | Moved l r rest => ((l ++ x ++ r)%list, rest)
  | Inside k' id nm ats l r => fill k' [OTag id nm ats (l ++ x ++ r)%list]
  end.

Fixpoint push (e : list obj) (k : ctx) : ctx :=
  match k with
  | Rest moved l r => Rest (moved ++ e) l r
  | Moved l r rest => Moved l (r ++ e) rest
  | Inside k' id nm ats l r => Inside (push e k') id nm ats l r
  end.

Definition focus (L R : list obj) (k : ctx) : ctx :=
  match k with
  | Rest moved l r => Rest moved (l ++ L) (R ++ r)
  | Moved l r rest => Moved (l ++ L) (R ++ r) rest
  | Inside k' id nm ats l r => Inside k' id nm ats (l ++ L) (R ++ r)
  end.

Fixpoint ctx_ids (k : ctx) : list path :=
  match k with
  | Rest moved l r => all_ids moved ++ all_ids l ++ all_ids r
  | Moved l r rest => all_ids l ++ all_ids r ++ all_ids rest
  | Inside k' id _ _ l r => id :: ctx_ids k' ++ all_ids l ++ all_ids r
  end%list.

Section ObjInd.
Variable P : obj -> Prop.
Hypothesis HTag : forall id nm ats cs, Forall P cs -> P (OTag id nm ats cs).
Hypothesis HString : forall s, P (OString s).
Hypothesis HComment : forall s, P (OComment s).
Hypothesis HDoctype : forall s, P (ODoctype s).

Fixpoint obj_ind' (o : obj) : P o :=
  match o with
  | OTag id nm ats cs =>
      HTag id nm ats cs
        ((fix all (l : list obj) : Forall P l :=
            match l with
            | [] => Forall_nil P
            | x :: l' => Forall_cons x (obj_ind' x) (all l')
            end) cs)
  | OString s => HString s
  | OComment s => HComment s
  | ODoctype s => HDoctype s
  end.
End ObjInd.

(** The loop over the accepted tags of a forest that stands in an open
    place of the state. *)
Definition loop_tree (m : string -> list attr -> bool) (o : obj) : Prop :=
  forall k, NoDup (all_ids_node o) ->
            (forall id, In id (all_ids_node o) -> ~ In id (ctx_ids k)) ->
            fold_left move (oids_node m o) (fill k [o])
            = fill (push (ocollect_node m o) k) (oprune_here m o).

Definition loop_forest (m : string -> list attr -> bool) (l : list obj) : Prop :=
  forall k, NoDup (all_ids l) ->
            (forall id, In id (all_ids l) -> ~ In id (ctx_ids k)) ->
            fold_left move (oids m l) (fill k l)
            = fill (push (ocollect m l) k) (oprune_list m l).

End Recovery.

(** ** The program *)

Definition html_like_tags : list string :=
  ["html"; "body"; "div"; "section"; "header"; "footer"; "p";
   "h1"; "h2"; "h3"; "h4"; "h5"; "h6"].

Definition content_tags : list string :=
  ["div"; "section"; "p"; "h1"; "h2"; "h3"; "script"; "style"].

Definition skeleton_html : string := "<html><body></body></html>".

Definition default_form_before : string :=
  nl ++
  "        <div id=" ++ dq ++ "prompt-form" ++ dq ++ " style=" ++ dq ++ "margin: 20px 0; padding: 15px; background-color: #f8f9fa; border-radius: 5px;" ++ dq ++ ">" ++ nl ++
  "            <h3>Modify this webpage</h3>" ++ nl ++
  "            ".

Definition default_form_head : string :=
  default_form_before ++ "<form action=" ++ dq ++ "https://github.com/".

Definition default_form_after : string :=
  " method=" ++ dq ++ "get" ++ dq ++ " target=" ++ dq ++ "_blank" ++ dq ++ ">" ++ nl ++
  "                <input type=" ++ dq ++ "hidden" ++ dq ++ " name=" ++ dq ++ "labels" ++ dq ++ " value=" ++ dq ++ "prompt" ++ dq ++ ">" ++ nl ++
  "                <input type=" ++ dq ++ "text" ++ dq ++ " name=" ++ dq ++ "body" ++ dq ++ " placeholder=" ++ dq ++ "Enter your instructions..." ++ dq ++ " style=" ++ dq ++ "width: 70%; padding: 8px; margin-right: 10px;" ++ dq ++ ">" ++ nl ++
  "                <button type=" ++ dq ++ "submit" ++ dq ++ " style=" ++ dq ++ "padding: 8px 15px; background-color: #0366d6; color: white; border: none; border-radius: 3px; cursor: pointer;" ++ dq ++ ">Submit</button>" ++ nl ++
  "            </form>" ++ nl ++
  "            <p><small>Your request will be processed through GitHub Issues</small></p>" ++ nl ++
  "        </div>" ++ nl ++
  "        ".

Definition default_form_tail : string :=
  "/issues/new" ++ dq ++ default_form_after.

(** The literal [default_form] of [extract_form], split around the two
    placeholders of its action URL. *)
Definition default_form : string :=
  default_form_head ++ "REPO_OWNER" ++ "/" ++ "REPO_NAME" ++ default_form_tail.

(** The issue URL of a repository. *)
Definition action_url (owner name : string) : string :=
  "https://github.com/" ++ owner ++ "/" ++ name ++ "/issues/new".

(** [find_all('input', {'type': 'text'})] *)
Definition text_inputs : string -> list Soup.attr -> bool :=
  Soup.named_with "input" "type" "text".

(** The tree of [skeleton_html]. *)
Definition skeleton : Soup.soup :=
  [Soup.Tag "html" [] [Soup.Tag "body" [] []]].

Section Editor.

(** [BeautifulSoup(markup, 'html.parser')] *)
Variable parse : string -> Soup.soup.

(** [os.environ.get("REPO_OWNER")] and [os.environ.get("REPO_NAME")],
    read when the module is loaded. *)
Variable REPO_OWNER REPO_NAME : option string.

Definition extract_html_from_llm_response (response_text : string)
  : outcome string :=
  let matches := Re.findall html_pattern response_text in
  match matches with
  | m0 :: _ => Returns (Str.strip m0)
  | [] =>
      let soup := parse response_text in
      let html_tags := Soup.find_all (Soup.named html_like_tags) soup in
      match html_tags with
      | _ :: _ => Returns (Str.strip response_text)
      | [] => Raises HTMLExtractionError
      end
  end.

(** [form_soup.find() if form_soup.find() else form_soup]: the first tag
    of the fragment, or the whole soup, whose children go in one by one. *)
Definition form_element_of (form_soup : Soup.soup) : list Soup.node :=
  match Soup.find Soup.any_tag form_soup with
  | Some p =>
      match Soup.get form_soup p with
      | Some t => [t]
      | None => []
      end
  | None => form_soup
  end.

(** The loop [for tag in content_soup.find_all([...]): soup.body.append(tag)].
    [soup.body] is the same tag at every round (what is appended goes to
    its end and is never a body), so the tags appended so far are kept
    apart, as the tail of its contents. *)
Definition recovered (content_soup : Soup.soup) : list Soup.node :=
  let tags := Soup.find_all (Soup.named content_tags) content_soup in
  map Obj.erase (fst (fold_left Obj.move tags ([], Obj.label content_soup))).

Definition add_form_back (form_html new_html : string) : outcome string :=
  let soup := parse new_html in
  let form_soup := parse form_html in
  let form_element := form_element_of form_soup in
  match Soup.find (Soup.named ["body"]) soup with
  | Some body_tag =>
      Returns (Soup.soup_to_string (Soup.insert_first form_element body_tag soup))
  | None =>
      match Soup.find (Soup.named ["html"]) soup with
      | Some html_tag =>
          let body_tag := Soup.Tag "body" [] form_element in
          Returns (Soup.soup_to_string (Soup.append [body_tag] html_tag soup))
      | None =>
          let soup := parse skeleton_html in
          match Soup.find (Soup.named ["body"]) soup with
          | None => Raises AttributeError
          | Some body =>
              let soup := Soup.append form_element body soup in
              let content_soup := parse new_html in
              Returns (Soup.soup_to_string
                         (Soup.append (recovered content_soup) body soup))
          end
      end
  end.

(** [for input_tag in inputs: parent = input_tag.parent; if
    parent.find('button'): form = parent; break] *)
Fixpoint first_parent_with_button (soup : Soup.soup) (inputs : list Soup.path)
  : option Soup.path :=
  match inputs with
  | [] => None
  | input_tag :: inputs' =>
      let parent := Soup.parent input_tag in
      match Soup.descend soup parent with
      | Some cs =>
          match Soup.find (Soup.named ["button"]) cs with
          | Some _ => Some parent
          | None => first_parent_with_button soup inputs'
          end
      | None => first_parent_with_button soup inputs'
      end
  end.

(** What [form] is bound to when the default form is not needed. *)
Definition locate_form (soup : Soup.soup) : option Soup.path :=
  match Soup.find (Soup.named ["form"]) soup with
  | Some form => Some form
  | None =>
      let inputs := Soup.find_all text_inputs soup in
      let buttons := Soup.find_all (Soup.named ["button"]) soup in
      match inputs, buttons with
      | _ :: _, _ :: _ => first_parent_with_button soup inputs
      | _, _ => None
      end
  end.

(** [str(form)]: of a tag, or of the root. *)
Definition str_at (soup : Soup.soup) (p : Soup.path) : string :=
  match p with
  | [] => Soup.soup_to_string soup
  | _ =>
      match Soup.get soup p with
      | Some t => Soup.to_string t
      | None => EmptyString
      end
  end.

Definition extract_form (html_content : string) : outcome (string * string) :=
  let soup := parse html_content in
  match locate_form soup with
  | None =>
      match REPO_OWNER, REPO_NAME with
      | Some owner, Some name =>
          Returns (Str.replace "REPO_NAME" name
                     (Str.replace "REPO_OWNER" owner default_form),
                   html_content)
      | _, _ => Raises TypeError
      end
  | Some form =>
      let form_html := str_at soup form in
      Returns (form_html, Soup.soup_to_string (Soup.extract form soup))
  end.

End Editor.

(** ** The driver *)

(** A value of the issue's JSON object, as far as [main] reads it: a
    string, or null. *)
Inductive value : Type :=
| VNone
| VStr (s : string).

(** A value inside an f-string. *)
Definition fmt (v : value) : string :=
  match v with
  | VNone => "None"
  | VStr s => s
  end.

(** A setting of the environment inside an f-string. *)
Definition fmt_env (v : option string) : string :=
  match v with
  | None => "None"
  | Some s => s
  end.

(** [issue[key]] *)
Fixpoint lookup_key (key : string) (d : list (string * value)) : option value :=
  match d with
  | [] => None
  | (k, v) :: d' => if String.eqb key k then Some v else lookup_key key d'
  end.

(** What [main] can meet: the two API errors with their message, a missing
    key, and what the functions above raise. *)
Inductive failure : Type :=
| GitHubAPIError (msg : string)
| GeminiAPIError (msg : string)
| KeyError (key : string)
| CoreError (e : exn).

Inductive result (A : Type) : Type :=
| Done (a : A)
| Failed (f : failure).
Arguments Done {A} a.
Arguments Failed {A} f.

(** The calls that leave the process, each with what it is given. *)
Inductive call : Type :=
| IssueRead
| FileRead
| Completion (prompt : string)
| Commit (file_content file_sha : string)
| Comment (text : string)
| Close (endpoint : string).

(** A computation: the calls made, in order, each with whether it
    succeeded, and how it ends. *)
Definition io (A : Type) : Type := (list (call * bool) * result A)%type.

Definition ret {A : Type} (a : A) : io A := ([], Done a).

Definition raise {A : Type} (f : failure) : io A := ([], Failed f).

Definition bind {A B : Type} (c : io A) (k : A -> io B) : io B :=
  match c with
  | (t, Done a) => let '(t', r) := k a in ((t ++ t')%list, r)
  | (t, Failed f) => (t, Failed f)
  end.

Definition succeeded {A : Type} (r : result A) : bool :=
  match r with
  | Done _ => true
  | Failed _ => false
  end.

(** A call of a collaborator. *)
Definition perform {A : Type} (c : call) (r : result A) : io A :=
  ([(c, succeeded r)], r).

(** A call of one of the functions above. *)
Definition core {A : Type} (o : outcome A) : io A :=
  match o with
  | Returns a => ret a
  | Raises e => raise (CoreError e)
  end.

Notation "x <- c ;; k" := (bind c (fun x => k))
  (at level 61, c at next level, right associativity).
Notation "' pat <- c ;; k" := (bind c (fun x => match x with pat => k end))
  (at level 61, pat pattern, c at next level, right associativity).

Definition create_prompt (html_content : string) (user_instructions : value)
  : string :=
  nl ++ "Please modify the following HTML/CSS/JS webpage according to these instructions:" ++ nl ++ nl ++
  "INSTRUCTIONS: " ++ fmt user_instructions ++ nl ++ nl ++
  "IMPORTANT RULES:" ++ nl ++
  "1. Return the COMPLETE updated HTML file, not just a snippet or the changes." ++ nl ++
  "2. Respond with only the HTML code, no explanations or markdown formatting." ++ nl ++
  "3. Feel free to enhance the CSS and add JavaScript as needed." ++ nl ++
  "4. Maintain the overall structure with html, head, and body tags." ++ nl ++ nl ++
  "CURRENT HTML:" ++ nl ++
  "```html" ++ nl ++ html_content ++ nl ++ "```" ++ nl ++ nl ++
  "Provide the complete updated HTML file:" ++ nl.

Section Driver.

Variable parse : string -> Soup.soup.
Variable REPO_OWNER REPO_NAME ISSUE_NUMBER : option string.

(** The collaborators: what each call over the network gives back. *)
Variable get_issue_details : result (list (string * value)).
Variable get_current_html : result (string * string).
Variable get_gemini_completion : string -> result string.
Variable commit_file : string -> string -> result string.
Variable add_comment_to_issue : string -> result unit.

(** [github_request("PATCH", endpoint, {"state": "closed"})] *)
Variable close_issue : string -> result unit.

(** The runs of characters of the two comments that are no ASCII. *)
Variable party link cross : string.

Definition success_comment (commit_url : string) : string :=
  nl ++ "## Website Updated! " ++ party ++ nl ++ nl ++
  "Your changes have been applied to the website based on your instructions." ++ nl ++ nl ++
  "### " ++ link ++ " Links" ++ nl ++
  "- [View Commit](" ++ commit_url ++ ")" ++ nl ++
  "- [View Website](https://" ++ fmt_env REPO_OWNER ++ ".github.io/" ++ fmt_env REPO_NAME ++ "/)" ++ nl ++ nl ++
  "If you need further adjustments, please create a new issue with the 'prompt' label." ++ nl.

Definition error_comment (message : string) : string :=
  nl ++ "## " ++ cross ++ " Error Updating Website" ++ nl ++ nl ++
  "Sorry, an error occurred while processing your request:" ++ nl ++ nl ++
  "```" ++ nl ++ message ++ nl ++ "```" ++ nl ++ nl ++
  "Please check your instructions and try again. If the problem persists, contact the repository maintainer." ++ nl.

Definition issue_endpoint : string :=
  "repos/" ++ fmt_env REPO_OWNER ++ "/" ++ fmt_env REPO_NAME ++ "/issues/"
    ++ fmt_env ISSUE_NUMBER.

Definition required (key : string) (d : list (string * value)) : io value :=
  match lookup_key key d with
  | Some v => ret v
  | None => raise (KeyError key)
  end.

(** [try: new_html = extract_html_from_llm_response(llm_response)
     except HTMLExtractionError: new_html = llm_response] *)
Definition extracted_or_raw (llm_response : string) : io string :=
  match extract_html_from_llm_response parse llm_response with
  | Returns new_html => ret new_html
  | Raises HTMLExtractionError => ret llm_response
  | Raises e => raise (CoreError e)
  end.

(** The body of the [try] of [main]. *)
Definition attempt : io nat :=
  issue <- perform IssueRead get_issue_details ;;
  user_instructions <- required "body" issue ;;
  _ <- required "title" issue ;;
  '(current_html, file_sha) <- perform FileRead get_current_html ;;
  '(form_html, html_without_form) <-
     core (extract_form parse REPO_OWNER REPO_NAME current_html) ;;
  let prompt := create_prompt html_without_form user_instructions in
  llm_response <- perform (Completion prompt) (get_gemini_completion prompt) ;;
  new_html <- extracted_or_raw llm_response ;;
  final_html <- core (add_form_back parse form_html new_html) ;;
  commit_sha <- perform (Commit final_html file_sha)
                  (commit_file final_html file_sha) ;;
  let commit_url :=
    "https://github.com/" ++ fmt_env REPO_OWNER ++ "/" ++ fmt_env REPO_NAME
      ++ "/commit/" ++ commit_sha in
  let comment := success_comment commit_url in
  _ <- perform (Comment comment) (add_comment_to_issue comment) ;;
  _ <- perform (Close issue_endpoint) (close_issue issue_endpoint) ;;
  ret 0.

(** [str(e)] for the exceptions that [main] catches. *)
Definition caught (f : failure) : option string :=
  match f with
  | GitHubAPIError msg => Some msg
  | GeminiAPIError msg => Some msg
  | CoreError HTMLExtractionError =>
      Some "Could not extract HTML from LLM response"
  | _ => None
  end.

(** [main]: the exit code, or the exception that leaves it. *)
Definition main : io nat :=
  match attempt with
  | (t, Done code) => (t, Done code)
  | (t, Failed f) =>
      match caught f with
      | Some message =>
          let error_message := error_comment message in
          ((t ++ [(Comment error_message,
                   succeeded (add_comment_to_issue error_message))])%list,
           Done 1)
      | None => (t, Failed f)
      end
  end.

End Driver.

(** ** A reference parser

    [html_parser] builds the tree that [BeautifulSoup(markup, 'html.parser')]
    builds, for markup made of complete start tags (attribute values quoted,
    unquoted or absent, attribute names distinct), end tags, comments, a
    document type and text free of [&] and of a stray [<]. The theorems
    below hold for any parser; this one runs them on concrete pages. *)

Module HtmlParser.
Import Soup.

Inductive token : Type :=
| TStart (name : string) (attrs : list attr) (closed : bool)
| TEnd (name : string)
| TData (s : string)
| TComment (s : string)
| TDecl (s : string).

Definition lower (c : ascii) : ascii :=
  let n := nat_of_ascii c in
  if ((65 <=? n) && (n <=? 90))%nat then ascii_of_nat (n + 32) else c.

Fixpoint lowercase (s : string) : string :=
  match s with
  | EmptyString => EmptyString
  | String c s' => String (lower c) (lowercase s')
  end.

Definition is_letter (c : ascii) : bool :=
  let n := nat_of_ascii (lower c) in ((97 <=? n) && (n <=? 122))%nat.

(** The longest prefix whose characters satisfy [p], and the rest. *)
Fixpoint span (p : ascii -> bool) (s : string) : string * string :=
  match s with
  | EmptyString => (EmptyString, EmptyString)
  | String c s' =>
      if p c then let '(a, b) := span p s' in (String c a, b)
      else (EmptyString, s)
  end.

(** [s] around the first occurrence of [pat]. *)
Fixpoint split_at (pat s : string) : option (string * string) :=
  match Str.drop_prefix pat s with
  | Some r => Some (EmptyString, r)
  | None =>
      match s with
      | EmptyString => None
      | String c s' =>
          match split_at pat s' with
          | Some (a, b) => Some (String c a, b)
          | None => None
          end
      end
  end.

(** The white space of HTML: space, tab, line feed, form feed, return. *)
Definition ascii_space (c : ascii) : bool :=
  let n := nat_of_ascii c in
  ((n =? 32) || (n =? 9) || (n =? 10) || (n =? 12) || (n =? 13))%nat.

Definition name_char (c : ascii) : bool :=
  negb (ascii_space c || Ascii.eqb c "/" || Ascii.eqb c gt).

Definition attr_name_char (c : ascii) : bool :=
  negb (ascii_space c || Ascii.eqb c "/" || Ascii.eqb c gt || Ascii.eqb c "=").

Definition unquoted_char (c : ascii) : bool :=
  negb (ascii_space c || Ascii.eqb c gt).

Definition add_attr (k v : string) (ats : list attr) : list attr :=
  (ats ++ [(k, v)])%list.

(** The attributes of a start tag from [s] on; whether it ends in [/>];
    what follows its [>]. *)
Fixpoint parse_attrs (fuel : nat) (s : string) (ats : list attr)
  : list attr * bool * string :=
  match fuel with
  | O => (ats, false, EmptyString)
  | S fuel' =>
      let s := snd (span ascii_space s) in
      match s with
      | EmptyString => (ats, false, EmptyString)
      | String c s' =>
          if Ascii.eqb c gt then (ats, false, s')
          else if Ascii.eqb c "/" then
            match s' with
            | String c' s'' =>
                if Ascii.eqb c' gt then (ats, true, s'')
                else parse_attrs fuel' s' ats
            | EmptyString => (ats, false, EmptyString)
            end
          else
            let '(k, r) := span attr_name_char s in
            let k := lowercase k in
            let r' := snd (span ascii_space r) in
            match r' with
            | String "=" r'' =>
                let v := snd (span ascii_space r'') in
                match v with
                | String q v' =>
                    if Ascii.eqb q quot || Ascii.eqb q apos then
                      match split_at (String q EmptyString) v' with
                      | Some (val, after) =>
                          parse_attrs fuel' after (add_attr k val ats)
                      | None => (ats, false, EmptyString)
                      end
                    else
                      let '(val, after) := span unquoted_char v in
                      parse_attrs fuel' after (add_attr k val ats)
                | EmptyString => (add_attr k EmptyString ats, false, EmptyString)
                end
            | _ =>
                match k with
                | EmptyString => (ats, false, EmptyString)
                | _ => parse_attrs fuel' r (add_attr k EmptyString ats)
                end
            end
      end
  end.

Definition data_token (s : string) : list token :=
  match s with
  | EmptyString => []
  | _ => [TData s]
  end.

(** The events of the parser on [s]; [cdata] names the script or style
    element whose text is being read. *)
Fixpoint tokenize (fuel : nat) (cdata : option string) (s : string) : list token :=
  match fuel with
  | O => []
  | S fuel' =>
      match s with
      | EmptyString => []
      | String c s' =>
          match cdata with
          | Some e =>
              match split_at ("</" ++ e ++ ">") s with
              | Some (text, after) =>
                  (data_token text ++ TEnd e :: tokenize fuel' None after)%list
              | None => [TData s]
              end
          | None =>
              if Ascii.eqb c lt then
                match Str.drop_prefix "!--" s' with
                | Some r =>
                    match split_at "-->" r with
                    | Some (text, after) => TComment text :: tokenize fuel' None after
                    | None => [TData s]
                    end
                | None =>
                    match s' with
                    | String "!" r =>
                        match split_at (String gt EmptyString) r with
                        | Some (text, after) => TDecl text :: tokenize fuel' None after
                        | None => [TData s]
                        end
                    | String "/" r =>
                        match split_at (String gt EmptyString) r with
                        | Some (text, after) =>
                            TEnd (lowercase (fst (span name_char (snd (span ascii_space text)))))
                              :: tokenize fuel' None after
                        | None => [TData s]
                        end
                    | String c' _ =>
                        if is_letter c' then
                          let '(nm, r) := span name_char s' in
                          let nm := lowercase nm in
                          let '(ats, closed, after) := parse_attrs (String.length r) r [] in
                          TStart nm ats closed
                            :: tokenize fuel'
                                 (if cdata_containing nm && negb closed
                                  then Some nm else None) after
                        else TData (String lt EmptyString) :: tokenize fuel' None s'
                    | EmptyString => [TData s]
                    end
                end
              else
                let '(text, after) := span (fun x => negb (Ascii.eqb x lt)) s in
                TData text :: tokenize fuel' None after
          end
      end
  end.

(** An open tag: its name, its attributes, its contents so far, the last
    first. *)
Definition frame : Type := (string * list attr * list node)%type.

Record builder : Type := {
  stack : list frame;          (* the open tags, the innermost first *)
  root : list node;            (* the contents of the root, the last first *)
  current_data : string;       (* the text not yet made a string *)
  already_closed : list string (* [already_closed_empty_element] *)
}.

Definition with_stack (st : list frame) (b : builder) : builder :=
  {| stack := st; root := root b; current_data := current_data b;
     already_closed := already_closed b |}.

Definition with_data (text : string) (b : builder) : builder :=
  {| stack := stack b; root := root b; current_data := text;
     already_closed := already_closed b |}.

Definition add_node (n : node) (b : builder) : builder :=
  match stack b with
  | (nm, ats, cs) :: st => with_stack ((nm, ats, n :: cs) :: st) b
  | [] =>
      {| stack := []; root := n :: root b; current_data := current_data b;
         already_closed := already_closed b |}
  end.

Fixpoint all_chars (p : ascii -> bool) (s : string) : bool :=
  match s with
  | EmptyString => true
  | String c s' => p c && all_chars p s'
  end.

Definition preserves_whitespace (nm : string) : bool :=
  String.eqb nm "pre" || String.eqb nm "textarea".

(** [endData]: the pending text becomes one string; text that is only
    white space shrinks to a line feed or a space outside pre and textarea. *)
Definition end_data (b : builder) : builder :=
  match current_data b with
  | EmptyString => b
  | text =>
      let text' :=
        if all_chars ascii_space text
           && negb (existsb (fun f => preserves_whitespace (fst (fst f))) (stack b))
        then if has_char (ascii_of_nat 10) text then nl else " "
        else text in
      add_node (NavigableString text') (with_data EmptyString b)
  end.

(** [popTag] *)
Definition pop_tag (b : builder) : builder :=
  match stack b with
  | (nm, ats, cs) :: st => add_node (Tag nm ats (rev cs)) (with_stack st b)
  | [] => b
  end.

(** [_popToTag]: nothing when no tag of that name is open. *)
Fixpoint pop_to (nm : string) (fuel : nat) (b : builder) : builder :=
  match fuel with
  | O => b
  | S fuel' =>
      match stack b with
      | (nm', _, _) :: _ =>
          if String.eqb nm nm' then pop_tag b else pop_to nm fuel' (pop_tag b)
      | [] => b
      end
  end.

Definition is_open (nm : string) (b : builder) : bool :=
  existsb (fun f => String.eqb nm (fst (fst f))) (stack b).

(** [BeautifulSoup.handle_endtag] *)
Definition soup_endtag (nm : string) (b : builder) : builder :=
  let b := end_data b in
  if is_open nm b then pop_to nm (List.length (stack b)) b else b.

(** [list.remove]: the first occurrence goes. *)
Fixpoint remove_first (nm : string) (l : list string) : list string :=
  match l with
  | [] => []
  | x :: l' => if String.eqb nm x then l' else x :: remove_first nm l'
  end.

(** [BeautifulSoupHTMLParser.handle_endtag]: the end tag of an element that
    was closed at its start tag is only checked off. *)
Definition handle_endtag (nm : string) (b : builder) : builder :=
  if existsb (String.eqb nm) (already_closed b)
  then {| stack := stack b; root := root b; current_data := current_data b;
          already_closed := remove_first nm (already_closed b) |}
  else soup_endtag nm b.

Definition doctype_of (s : string) : string :=
  match Str.drop_prefix "doctype " (lowercase (substring 0 8 s)) with
  | Some _ => substring 8 (String.length s - 8) s
  | None => EmptyString
  end.

(** [handle_starttag], and [handle_startendtag] for a tag written [<tag/>]:
    an empty-element tag written [<tag>] is closed at once and its name is
    kept, for a later end tag; a tag written [<tag/>] gets an end tag
    event. *)
Definition feed (b : builder) (t : token) : builder :=
  match t with
  | TData s => with_data (current_data b ++ s) b
  | TStart nm ats closed =>
      let b := end_data b in
      let b := with_data EmptyString (with_stack ((nm, ats, []) :: stack b) b) in
      if closed then handle_endtag nm b
      else if can_be_empty_element nm then
        let b := soup_endtag nm b in
        {| stack := stack b; root := root b; current_data := current_data b;
           already_closed := (already_closed b ++ [nm])%list |}
      else b
  | TEnd nm => handle_endtag nm b
  | TComment s => add_node (Comment s) (end_data b)
  | TDecl s => add_node (Doctype (doctype_of s)) (end_data b)
  end.

Fixpoint close_all (fuel : nat) (b : builder) : builder :=
  match fuel with
  | O => b
  | S fuel' =>
      match stack b with
      | [] => b
      | _ => close_all fuel' (pop_tag b)
      end
  end.

Definition html_parser (markup : string) : soup :=
  let b := fold_left feed (tokenize (String.length markup) None markup)
             {| stack := []; root := []; current_data := EmptyString;
                already_closed := [] |} in
  let b := end_data b in
  rev (root (close_all (List.length (stack b)) b)).

End HtmlParser.

(** ** Pages for the examples *)

Module Pages.
Import Soup.

Definition P : string -> soup := HtmlParser.html_parser.

Definition page1 : string :=
  "<html><body><h1>T</h1><form><button>Go</button></form><p>x</p></body></html>".

Definition form1 : node :=
  Tag "form" [] [Tag "button" [] [NavigableString "Go"]].

Definition page2 : string :=
  "<h1>T</h1><div><input type='text'><button>Go</button></div>".

Definition page3 : string :=
  "<html><head><title>T</title></head><body><p>x</p></body></html>".

(** A page with no form, whose text input and button are children of the
    root. *)
Definition page4 : string := "<input type='text'><button>Go</button>".

(** An issue, a reply, and runs of the driver: one in which every call
    succeeds, one in which the completion fails, one in which the commit
    fails. *)
Definition issue1 : list (string * value) :=
  [("title", VStr "Blue"); ("body", VStr "make the background blue")].

Definition reply1 : string :=
  "```html" ++ nl ++ "<html><body><p>blue</p></body></html>" ++ nl ++ "```".

Definition run_with (completion : result string) (commit : result string)
  : io nat :=
  main P (Some "octo") (Some "site") (Some "7") (Done issue1)
    (Done (page1, "abc")) (fun _ => completion) (fun _ _ => commit)
    (fun _ => Done tt) (fun _ => Done tt) "!" "@" "x".

Definition run_ok : io nat := run_with (Done reply1) (Done "c0ffee").

Definition run_no_completion : io nat :=
  run_with (Failed (GeminiAPIError "quota")) (Done "c0ffee").

Definition run_no_commit : io nat :=
  run_with (Done reply1) (Failed (GitHubAPIError "409")).

End Pages.


(** ** Properties of the string operations *)

Module StrFacts.
Import Str.


Lemma append_nil_r (s : string) : s ++ EmptyString = s.
Proof. induction s; simpl; congruence. Qed.

Lemma append_assoc (a b c : string) : (a ++ b) ++ c = a ++ b ++ c.
Proof. induction a; simpl; congruence. Qed.

Lemma length_append (a b : string) :
  String.length (a ++ b) = String.length a + String.length b.
Proof. induction a; simpl; congruence. Qed.

Lemma drop_prefix_app (p s : string) : drop_prefix p (p ++ s) = Some s.
Proof.
  induction p as [|a p IH]; simpl; [reflexivity|].
  now rewrite Ascii.eqb_refl.
Qed.

Lemma drop_prefix_inv (p s r : string) : drop_prefix p s = Some r -> s = p ++ r.
Proof.
  revert s; induction p as [|a p IH]; simpl; intros s H.
  - congruence.
  - destruct s as [|b s]; [discriminate|].
    destruct (Ascii.eqb a b) eqn:E; [|discriminate].
    apply Ascii.eqb_eq in E; subst b. now rewrite (IH _ H).
Qed.

Lemma startswith_app (p s : string) : startswith p (p ++ s) = true.
Proof. unfold startswith. now rewrite drop_prefix_app. Qed.

Lemma startswith_false (p s : string) :
  startswith p s = false -> drop_prefix p s = None.
Proof. unfold startswith. destruct (drop_prefix p s); congruence. Qed.

(** No occurrence in [a ++ b] begins inside [a]. *)
Lemma occurs_suffix (p a y b : string) :
  occurs p (a ++ y ++ b) = false -> startswith p (y ++ b) = false.
Proof.
  induction a as [|c a IH]; simpl.
  - destruct (y ++ b); simpl; intros H; apply orb_false_iff in H; tauto.
  - intros H. apply orb_false_iff in H. tauto.
Qed.

Lemma occurs_tail (p a b : string) :
  occurs p (a ++ b) = false -> occurs p b = false.
Proof.
  induction a as [|c a IH]; simpl; [tauto|].
  intros H. apply orb_false_iff in H. tauto.
Qed.

(** *** Stripping *)

Lemma lstrip_split (s : string) :
  exists ws, s = ws ++ lstrip s /\ all_space ws = true.
Proof.
  induction s as [|c s IH]; simpl.
  - exists EmptyString; auto.
  - destruct (isspace c) eqn:E.
    + destruct IH as (ws & H1 & H2). exists (String c ws); simpl.
      rewrite E, H2. split; [now f_equal|reflexivity].
    + exists EmptyString; auto.
Qed.

Lemma lstrip_idem (s : string) : lstrip (lstrip s) = lstrip s.
Proof.
  induction s as [|c s IH]; simpl; [reflexivity|].
  destruct (isspace c) eqn:E; [assumption|]. simpl. now rewrite E.
Qed.

Lemma lstrip_all_space (ws t : string) :
  all_space ws = true -> lstrip (ws ++ t) = lstrip t.
Proof.
  induction ws as [|c ws IH]; simpl; [reflexivity|].
  intros H. apply andb_true_iff in H as [H1 H2]. rewrite H1. auto.
Qed.

(** Text that begins with a character that is no white space stops
    [lstrip]. *)
Lemma lstrip_app_stop (a t : string) :
  lstrip t = t -> lstrip (a ++ t) = lstrip a ++ t.
Proof.
  intros Ht. induction a as [|c a IH]; simpl; [assumption|].
  destruct (isspace c); [assumption|reflexivity].
Qed.

Lemma rstrip_split (s : string) :
  exists ws, s = rstrip s ++ ws /\ all_space ws = true.
Proof.
  induction s as [|c s IH]; simpl.
  - exists EmptyString; auto.
  - destruct IH as (ws & H1 & H2).
    destruct (rstrip s) as [|d r] eqn:R.
    + destruct (isspace c) eqn:E.
      * exists (String c s). simpl. split; [reflexivity|].
        rewrite E. simpl in H1. now subst s.
      * exists s. simpl. split; [reflexivity|]. simpl in H1. now subst s.
    + exists ws. simpl. split; [|assumption]. simpl in H1. congruence.
Qed.

Lemma rstrip_idem (s : string) : rstrip (rstrip s) = rstrip s.
Proof.
  induction s as [|c s IH]; simpl; [reflexivity|].
  destruct (rstrip s) as [|d r] eqn:R.
  - destruct (isspace c) eqn:E; simpl; [reflexivity|]. now rewrite E.
  - simpl in *. now rewrite IH.
Qed.

(** A stripped text has stripped non-empty suffixes. *)
Lemma rstrip_fixed_tail (c : ascii) (x : string) :
  rstrip (String c x) = String c x -> x <> EmptyString -> rstrip x = x.
Proof.
  simpl. intros H Hx. destruct (rstrip x) as [|d r] eqn:R.
  - destruct (isspace c); [discriminate|]. injection H as H. congruence.
  - congruence.
Qed.

Lemma rstrip_fixed_suffix (x1 x2 : string) :
  rstrip (x1 ++ x2) = x1 ++ x2 -> x2 <> EmptyString -> rstrip x2 = x2.
Proof.
  induction x1 as [|c x1 IH]; simpl; [tauto|].
  intros H Hx. apply IH; [|assumption].
  apply (rstrip_fixed_tail c); [exact H|].
  destruct x1; simpl; [assumption|discriminate].
Qed.

Lemma lstrip_fixed_app (x t : string) :
  rstrip x = x -> x <> EmptyString ->
  lstrip x <> EmptyString /\ lstrip (x ++ t) = lstrip x ++ t.
Proof.
  induction x as [|c x IH]; [congruence|].
  intros H _. simpl (lstrip _). destruct (isspace c) eqn:E.
  - assert (Hx : x <> EmptyString).
    { intros ->. simpl in H. rewrite E in H. discriminate. }
    apply IH; [|assumption]. now apply (rstrip_fixed_tail c).
  - split; [discriminate|reflexivity].
Qed.

(** [lstrip] yields a suffix. *)
Lemma lstrip_suffix (x : string) : exists a, x = a ++ lstrip x.
Proof. destruct (lstrip_split x) as (ws & H & _). now exists ws. Qed.

Lemma lstrip_length (s : string) : String.length (lstrip s) <= String.length s.
Proof.
  induction s as [|c s IH]; simpl; [lia|].
  destruct (isspace c); simpl; lia.
Qed.

Lemma lstrip_rstrip (s : string) : lstrip s = s -> lstrip (rstrip s) = rstrip s.
Proof.
  destruct s as [|c s]; [reflexivity|]. simpl.
  destruct (isspace c) eqn:E.
  - intros H. exfalso.
    pose proof (lstrip_length s) as L. rewrite H in L. simpl in L. lia.
  - intros _. destruct (rstrip s); simpl; now rewrite E.
Qed.

Lemma strip_idem (s : string) : strip (strip s) = strip s.
Proof.
  unfold strip. rewrite (lstrip_rstrip (lstrip s) (lstrip_idem s)).
  apply rstrip_idem.
Qed.

(** [s] is its stripped text between two runs of white space. *)
Lemma strip_split (s : string) :
  exists ws1 ws2,
    s = ws1 ++ strip s ++ ws2 /\ lstrip s = strip s ++ ws2 /\
    all_space ws1 = true /\ all_space ws2 = true.
Proof.
  destruct (lstrip_split s) as (ws1 & H1 & A1).
  destruct (rstrip_split (lstrip s)) as (ws2 & H2 & A2).
  exists ws1, ws2. unfold strip. repeat split; try assumption.
  now rewrite <- H2.
Qed.

End StrFacts.

(** ** Properties of the matcher and of [html_pattern] *)

Module ReFacts.
Import Str StrFacts Re Fence.

Section Stars.
Context {R : Type}.
Implicit Types K : string -> option R.

(** The greedy white-space run hands the continuation the stripped text
    first. *)
Lemma star_greedy_first s K r :
  K (lstrip s) = Some r -> star_greedy isspace s K = Some r.
Proof.
  induction s as [|c s IH]; simpl; [tauto|].
  destruct (isspace c); [|tauto]. intros H. now rewrite (IH H).
Qed.

Lemma star_greedy_total cls s K r :
  K s = Some r -> exists r', star_greedy cls s K = Some r'.
Proof.
  destruct s as [|c s]; simpl; [eauto|].
  destruct (cls c); [|eauto].
  destruct (star_greedy cls s K); eauto.
Qed.

Lemma star_greedy_sound cls s K r :
  star_greedy cls s K = Some r -> exists w s', s = w ++ s' /\ K s' = Some r.
Proof.
  induction s as [|c s IH]; simpl.
  - intros H. exists EmptyString, EmptyString. auto.
  - destruct (cls c).
    + destruct (star_greedy cls s K) as [r'|] eqn:E.
      * intros H. injection H as ->.
        destruct (IH eq_refl) as (w & s' & -> & Hk).
        exists (String c w), s'. auto.
      * intros H. exists EmptyString, (String c s). auto.
    + intros H. exists EmptyString, (String c s). auto.
Qed.

(** The lazy run stops at the first place where the continuation
    succeeds. *)
Lemma star_lazy_first x s' K r :
  K s' = Some r ->
  (forall x1 x2, x = x1 ++ x2 -> x2 <> EmptyString -> K (x2 ++ s') = None) ->
  star_lazy any_char (x ++ s') K = Some r.
Proof.
  induction x as [|c x IH]; intros Hk Hfail.
  - simpl. destruct s'; simpl; now rewrite Hk.
  - assert (F : K (String c x ++ s') = None)
      by (apply (Hfail EmptyString (String c x)); [reflexivity|discriminate]).
    simpl in *. rewrite F.
    apply IH; [assumption|].
    intros x1 x2 -> Hx2. apply (Hfail (String c x1) x2); auto.
Qed.

Lemma star_lazy_total x s' K r :
  K s' = Some r -> exists r', star_lazy any_char (x ++ s') K = Some r'.
Proof.
  intros Hk. induction x as [|c x IH]; simpl.
  - destruct s'; simpl; rewrite Hk; eauto.
  - destruct (K (String c (x ++ s'))); eauto.
Qed.

Lemma star_lazy_sound cls s K r :
  star_lazy cls s K = Some r -> exists x s', s = x ++ s' /\ K s' = Some r.
Proof.
  induction s as [|c s IH]; simpl.
  - destruct (K EmptyString) eqn:E; [|discriminate].
    intros H. exists EmptyString, EmptyString. split; [reflexivity|congruence].
  - destruct (K (String c s)) eqn:E.
    + intros H. exists EmptyString, (String c s). split; [reflexivity|congruence].
    + destruct (cls c); [|discriminate]. intros H.
      destruct (IH H) as (x & s' & -> & Hk). exists (String c x), s'. auto.
Qed.
End Stars.


Lemma star_greedy_strip {R : Type} (K : string -> option R) (s : string) :
  (forall c t, isspace c = true -> K (String c t) = None) ->
  star_greedy isspace s K = K (lstrip s).
Proof.
  intros HK. induction s as [|c s IH]; [reflexivity|].
  cbn [star_greedy lstrip]. destruct (isspace c) eqn:E; [|reflexivity].
  rewrite IH. destruct (K (lstrip s)); [reflexivity|]. now apply HK.
Qed.

Lemma closer_eq {R : Type} (k : string -> option R) (s : string) :
  closer k s = match drop_prefix fence (lstrip s) with
               | Some s4 => k s4
               | None => None
               end.
Proof.
  unfold closer. apply star_greedy_strip.
  intros c t E. unfold fence. cbn [drop_prefix].
  destruct (Ascii.eqb "`" c) eqn:B; [|reflexivity].
  apply Ascii.eqb_eq in B. subst c. discriminate.
Qed.

Lemma match_here_html_pattern (s : string) :
  match_here html_pattern s =
  match drop_prefix fence s with
  | Some s1 =>
      match match drop_prefix "html" s1 with
            | Some s2 => block_tail s2
            | None => None
            end with
      | Some m => Some m
      | None => block_tail s1
      end
  | None => None
  end.
Proof. reflexivity. Qed.

Lemma consumed_app (x y : string) : consumed (x ++ y) y = x.
Proof.
  unfold consumed. rewrite length_append.
  replace (String.length x + String.length y - String.length y)
    with (String.length x) by lia.
  induction x as [|c x IH]; simpl.
  - destruct y; reflexivity.
  - now rewrite IH.
Qed.

(** A fence right after a non-empty text that has none begins no earlier. *)
Lemma no_fence_before (z t : string) :
  z <> EmptyString -> startswith fence (z ++ "``") = false ->
  drop_prefix fence (z ++ fence ++ t) = None.
Proof.
  intros Hz H. apply startswith_false in H. revert H.
  destruct z as [|a [|b [|c z]]]; [congruence| | |]; unfold fence;
    cbn [drop_prefix append];
    repeat (match goal with |- context [Ascii.eqb ?x ?y] =>
                              destruct (Ascii.eqb x y) end;
            cbn [drop_prefix append]);
    congruence.
Qed.

Lemma block_tail_total (mid post : string) :
  exists m, block_tail (mid ++ fence ++ post) = Some m.
Proof.
  unfold block_tail.
  set (K2 := fun s2 => closer (fun s4 => final s4
                         (Some (consumed (mid ++ fence ++ post) s2))) s2).
  assert (C : K2 (fence ++ post) =
              Some (consumed (mid ++ fence ++ post) (fence ++ post), post)).
  { unfold K2. rewrite closer_eq. reflexivity. }
  destruct (star_lazy_total mid _ K2 _ C) as (r1 & H1).
  eapply (star_greedy_total isspace _
            (fun s1 => star_lazy any_char s1
               (fun s2 => closer (fun s4 => final s4 (Some (consumed s1 s2))) s2))).
  exact H1.
Qed.

Lemma block_tail_sound (s g rest : string) :
  block_tail s = Some (g, rest) -> exists mid, s = mid ++ fence ++ rest.
Proof.
  unfold block_tail. intros H.
  apply star_greedy_sound in H as (w & s1 & -> & H).
  apply star_lazy_sound in H as (x & s2 & -> & H).
  apply star_greedy_sound in H as (w2 & s3 & -> & H).
  destruct (drop_prefix fence s3) as [s4|] eqn:D; [|discriminate].
  apply drop_prefix_inv in D. subst s3. injection H as _ ->.
  exists (w ++ x ++ w2). now rewrite !append_assoc.
Qed.

(** The group of a block whose text holds no fence is the stripped text. *)
Lemma block_tail_block (body post : string) :
  occurs fence (body ++ "``") = false ->
  block_tail (body ++ fence ++ post) = Some (strip body, post).
Proof.
  intros Hocc. unfold block_tail.
  destruct (strip_split body) as (ws1 & ws2 & Hb & Hl & A1 & A2).
  apply star_greedy_first.
  rewrite (lstrip_app_stop body (fence ++ post) eq_refl), Hl, append_assoc.
  apply star_lazy_first.
  - rewrite closer_eq, (lstrip_all_space ws2 _ A2).
    change (lstrip (fence ++ post)) with (fence ++ post).
    rewrite drop_prefix_app. unfold final.
    now rewrite consumed_app.
  - intros x1 x2 Hx Hx2. rewrite closer_eq.
    assert (F : rstrip x2 = x2).
    { apply (rstrip_fixed_suffix x1); [|assumption].
      rewrite <- Hx. apply rstrip_idem. }
    destruct (lstrip_fixed_app x2 (ws2 ++ fence ++ post) F Hx2) as (Hne & ->).
    destruct (lstrip_suffix x2) as (a & Ha).
    rewrite <- append_assoc.
    rewrite (no_fence_before (lstrip x2 ++ ws2) post); [reflexivity| |].
    + destruct (lstrip x2); [congruence|discriminate].
    + rewrite append_assoc.
      apply (occurs_suffix fence (ws1 ++ x1 ++ a)).
      rewrite Hb, Hx, Ha in Hocc at 1.
      now rewrite !append_assoc in *.
Qed.


Lemma no_html_before (x t : string) :
  startswith "html" x = false ->
  drop_prefix "html" (x ++ fence ++ t) = None.
Proof.
  intros H. apply startswith_false in H. revert H.
  destruct x as [|a [|b [|c [|d x]]]]; unfold fence;
    cbn [drop_prefix append];
    repeat (match goal with
            | |- context [Ascii.eqb ?x ?y] =>
                first [ is_var y; destruct (Ascii.eqb x y)
                      | change (Ascii.eqb x y) with false ]
            end; cbn [drop_prefix append]);
    congruence.
Qed.

(** A match at an opening fence that an [html] tag and a text with no
    fence follow. *)
Lemma match_here_html_block (body post : string) :
  occurs fence (body ++ "``") = false ->
  match_here html_pattern (fence ++ "html" ++ body ++ fence ++ post)
  = Some (strip body, post).
Proof.
  intros H. rewrite match_here_html_pattern, drop_prefix_app, drop_prefix_app.
  now rewrite block_tail_block.
Qed.

(** A match at an opening fence that a text with no fence follows, when
    the text does not begin with [html]. *)
Lemma match_here_plain_block (x post : string) :
  occurs fence (x ++ "``") = false ->
  startswith "html" x = false ->
  match_here html_pattern (fence ++ x ++ fence ++ post) = Some (strip x, post).
Proof.
  intros H N. rewrite match_here_html_pattern, drop_prefix_app.
  rewrite no_html_before by assumption. now apply block_tail_block.
Qed.

Lemma search_skip (r : regex) (pre t : string) :
  (forall x1 x2, pre = x1 ++ x2 -> x2 <> EmptyString ->
                 match_here r (x2 ++ t) = None) ->
  search r (pre ++ t) = search r t.
Proof.
  induction pre as [|c pre IH]; intros H; [reflexivity|].
  cbn [append search].
  assert (F : match_here r (String c pre ++ t) = None)
    by (apply (H EmptyString); [reflexivity|discriminate]).
  cbn [append] in F. rewrite F. apply IH.
  intros x1 x2 -> Hx. now apply (H (String c x1)).
Qed.

Lemma search_here (r : regex) (s : string) (m : string * string) :
  match_here r s = Some m -> search r s = Some m.
Proof. intros H. destruct s; cbn [search]; now rewrite H. Qed.

(** The prose before the first fence is passed over. *)
Lemma search_html_skip (pre t : string) :
  occurs fence (pre ++ "``") = false ->
  search html_pattern (pre ++ fence ++ t) = search html_pattern (fence ++ t).
Proof.
  intros H. apply search_skip. intros x1 x2 -> Hx.
  rewrite match_here_html_pattern, no_fence_before; [reflexivity|assumption|].
  apply (occurs_suffix fence x1). now rewrite <- append_assoc.
Qed.

Lemma findall_head (r : regex) (s g rest : string) :
  search r s = Some (g, rest) -> exists tl, findall r s = g :: tl.
Proof. intros H. unfold findall. cbn [findall_fuel]. rewrite H. eauto. Qed.

Lemma findall_none (r : regex) (s : string) :
  search r s = None -> findall r s = [].
Proof. intros H. unfold findall. cbn [findall_fuel]. now rewrite H. Qed.

Lemma match_here_total (mid post : string) :
  exists m, match_here html_pattern (fence ++ mid ++ fence ++ post) = Some m.
Proof.
  rewrite match_here_html_pattern, drop_prefix_app.
  destruct (match drop_prefix "html" (mid ++ fence ++ post) with
            | Some s2 => block_tail s2
            | None => None
            end); [eauto|].
  apply block_tail_total.
Qed.

Lemma match_here_sound (s g rest : string) :
  match_here html_pattern s = Some (g, rest) ->
  exists mid, s = fence ++ mid ++ fence ++ rest.
Proof.
  rewrite match_here_html_pattern.
  destruct (drop_prefix fence s) as [s1|] eqn:D; [|discriminate].
  apply drop_prefix_inv in D. subst s.
  destruct (drop_prefix "html" s1) as [s2|] eqn:D2.
  - apply drop_prefix_inv in D2. subst s1.
    destruct (block_tail s2) as [[g' rest']|] eqn:B.
    + intros H. injection H as -> ->.
      apply block_tail_sound in B as (mid & ->).
      exists ("html" ++ mid). now rewrite append_assoc.
    + intros H. apply block_tail_sound in H as (mid & H).
      exists mid. now rewrite H.
  - intros H. apply block_tail_sound in H as (mid & ->). now exists mid.
Qed.

Lemma search_total (text : string) :
  has_fence text -> exists m, search html_pattern text = Some m.
Proof.
  intros (pre & mid & post & ->). induction pre as [|c pre IH].
  - destruct (match_here_total mid post) as (m & H).
    exists m. now apply search_here.
  - cbn [append search].
    destruct (match_here html_pattern _); eauto.
Qed.

Lemma search_sound (text : string) (m : string * string) :
  search html_pattern text = Some m -> has_fence text.
Proof.
  destruct m as [g rest]. induction text as [|c text IH]; cbn [search].
  - destruct (match_here html_pattern EmptyString) eqn:E; [|discriminate].
    intros H. rewrite H in E. apply match_here_sound in E as (mid & E).
    discriminate.
  - destruct (match_here html_pattern (String c text)) eqn:E.
    + intros H. rewrite H in E. apply match_here_sound in E as (mid & E).
      exists EmptyString, mid, rest. exact E.
    + intros H. destruct (IH H) as (pre & mid & post & ->).
      now exists (String c pre), mid, post.
Qed.


(** A word stays at the head of a text that is stripped. *)
Lemma strip_word (w t : string) :
  w <> EmptyString -> no_space w = true -> exists r, strip (w ++ t) = w ++ r.
Proof.
  intros Hw Hs. unfold strip.
  assert (L : lstrip (w ++ t) = w ++ t).
  { destruct w as [|c w]; [congruence|]. cbn in *.
    apply andb_true_iff in Hs as [Hc _].
    now destruct (isspace c). }
  rewrite L. clear L. induction w as [|c w IH]; [congruence|].
  cbn [no_space] in Hs. apply andb_true_iff in Hs as [Hc Hs].
  cbn [append rstrip]. destruct w as [|d w].
  - cbn [append]. destruct (rstrip t).
    + destruct (isspace c); [discriminate|]. now exists EmptyString.
    + eauto.
  - destruct (IH ltac:(discriminate) Hs) as (r & ->). cbn [append]. eauto.
Qed.

End ReFacts.

(** ** The response extractor *)

Section ResponseExtractor.
Import Str StrFacts Re Fence ReFacts.
Variable parse : string -> Soup.soup.

Lemma extract_html_fenced (text g rest : string) :
  search html_pattern text = Some (g, rest) ->
  extract_html_from_llm_response parse text = Returns (strip g).
Proof.
  intros H. unfold extract_html_from_llm_response.
  destruct (findall_head _ _ _ _ H) as (tl & ->). reflexivity.
Qed.

Lemma extract_html_unfenced (text : string) :
  search html_pattern text = None ->
  extract_html_from_llm_response parse text =
  match Soup.find_all (Soup.named html_like_tags) (parse text) with
  | _ :: _ => Returns (strip text)
  | [] => Raises HTMLExtractionError
  end.
Proof.
  intros H. unfold extract_html_from_llm_response.
  now rewrite (findall_none _ _ H).
Qed.

(** C4: the extractor raises HTMLExtractionError exactly when the text
    holds no fenced block and its parse holds no tag of the recognised
    set; with no fenced block and such a tag it returns the whole text,
    stripped. *)
Theorem extraction_error_iff (text : string) :
  (extract_html_from_llm_response parse text = Raises HTMLExtractionError
   <-> ~ has_fence text
       /\ Soup.find_all (Soup.named html_like_tags) (parse text) = [])
  /\ (~ has_fence text ->
      Soup.find_all (Soup.named html_like_tags) (parse text) <> [] ->
      extract_html_from_llm_response parse text = Returns (strip text)).
Proof.
  destruct (search html_pattern text) as [[g rest]|] eqn:S.
  - pose proof (search_sound _ _ S) as F.
    rewrite (extract_html_fenced _ _ _ S).
    split; [split|]; [discriminate|tauto|tauto].
  - assert (NF : ~ has_fence text).
    { intros F. destruct (search_total _ F) as (m & E). congruence. }
    rewrite (extract_html_unfenced _ S).
    destruct (Soup.find_all _ (parse text)); split; try split;
      try tauto; try discriminate; try congruence.
    intros [_ H]. discriminate.
Qed.

(** C5: with a fenced block, tagged html or not tagged, that the first
    fence of the text opens, the extractor returns the text between the
    fences, stripped, whatever stands before and after the block. *)
Theorem fenced_block_interior (pre tag body post : string) :
  occurs fence (pre ++ "``") = false ->
  occurs fence (body ++ "``") = false ->
  tag = "html" \/ (tag = EmptyString /\ startswith "html" body = false) ->
  extract_html_from_llm_response parse
    (pre ++ fence ++ tag ++ body ++ fence ++ post)
  = Returns (strip body).
Proof.
  intros Hpre Hbody Htag.
  assert (S : search html_pattern (pre ++ fence ++ tag ++ body ++ fence ++ post)
              = Some (strip body, post)).
  { rewrite search_html_skip by assumption. apply search_here.
    destruct Htag as [->|[-> N]].
    - now apply match_here_html_block.
    - now apply match_here_plain_block. }
  rewrite (extract_html_fenced _ _ _ S). now rewrite strip_idem.
Qed.

(** C10, amended: when the text after the first fence begins with a word
    and does not begin with [html], the word is not taken off: what is
    returned is the stripped text from the word on, the word at its head. *)
Theorem language_word_kept (pre w body post : string) :
  occurs fence (pre ++ "``") = false ->
  occurs fence ((w ++ body) ++ "``") = false ->
  w <> EmptyString -> no_space w = true ->
  startswith "html" (w ++ body) = false ->
  extract_html_from_llm_response parse
    (pre ++ fence ++ w ++ body ++ fence ++ post)
  = Returns (strip (w ++ body))
  /\ startswith w (strip (w ++ body)) = true.
Proof.
  intros Hpre Hbody Hw Hs Hh. split.
  - assert (S : search html_pattern (pre ++ fence ++ w ++ body ++ fence ++ post)
                = Some (strip (w ++ body), post)).
    { rewrite search_html_skip by assumption. apply search_here.
      rewrite <- (append_assoc w body). now apply match_here_plain_block. }
    rewrite (extract_html_fenced _ _ _ S). now rewrite strip_idem.
  - destruct (strip_word w body Hw Hs) as (r & ->). apply startswith_app.
Qed.

End ResponseExtractor.

(** ** More on the response extractor *)

Section ResponseExtractorMore.
Import Str StrFacts Re Fence ReFacts.
Variable parse : string -> Soup.soup.

(** X1: what the extractor returns has no white space at either end. *)
Theorem extracted_is_stripped (text r : string) :
  extract_html_from_llm_response parse text = Returns r -> strip r = r.
Proof.
  unfold extract_html_from_llm_response.
  destruct (findall html_pattern text) as [|g tl].
  - destruct (Soup.find_all _ (parse text)); [discriminate|].
    intros H. injection H as <-. apply strip_idem.
  - intros H. injection H as <-. apply strip_idem.
Qed.

End ResponseExtractorMore.

(** X2: a text in which a fence follows a fence never makes the extractor
    raise, and what is returned does not depend on how the text parses as
    markup. *)
Theorem fenced_reply_returns (text : string) :
  Fence.has_fence text ->
  exists r, forall parse, extract_html_from_llm_response parse text = Returns r.
Proof.
  intros F. destruct (ReFacts.search_total text F) as ([g rest] & S).
  exists (Str.strip g). intros parse. now apply extract_html_fenced with (rest := rest).
Qed.

(** ** Properties of the tree operations *)

Module SoupFacts.
Import Soup.

Lemma in_walk (f : node -> list path) (l : list node) (i : nat) (p : path) :
  In p (walk f i l) <->
  exists j c q, nth_error l j = Some c /\ In q (f c) /\ p = (i + j) :: q.
Proof.
  revert i. induction l as [|x l IH]; intros i; cbn [walk].
  - split; [intros []|]. intros (j & c & q & H & _). now destruct j.
  - rewrite in_app_iff, in_map_iff, IH. split.
    + intros [(q & <- & Hq)|(j & c & q & Hj & Hq & ->)].
      * exists 0, x, q. rewrite Nat.add_0_r. auto.
      * exists (S j), c, q. rewrite Nat.add_succ_r. auto.
    + intros (j & c & q & Hj & Hq & ->). destruct j as [|j]; cbn in Hj.
      * injection Hj as ->. left. exists q. now rewrite Nat.add_0_r.
      * right. exists j, c, q. now rewrite Nat.add_succ_r.
Qed.

Lemma in_find_all (m : string -> list attr -> bool) (l : list node) (p : path) :
  In p (find_all m l) <->
  exists j c q, nth_error l j = Some c /\ In q (find_all_node m c) /\ p = j :: q.
Proof. unfold find_all. now rewrite in_walk. Qed.

Lemma in_find_all_node (m : string -> list attr -> bool) (c : node) (q : path) :
  In q (find_all_node m c) <->
  exists nm ats cs, c = Tag nm ats cs /\
    ((q = [] /\ m nm ats = true) \/ In q (find_all m cs)).
Proof.
  destruct c as [nm ats cs| | |]; cbn [find_all_node].
  - rewrite in_app_iff. split.
    + intros [H|H].
      * exists nm, ats, cs. destruct (m nm ats); [|contradiction].
        destruct H as [<-|[]]. auto.
      * exists nm, ats, cs. auto.
    + intros (nm' & ats' & cs' & E & H). injection E as <- <- <-.
      destruct H as [[-> ->]|H]; [left; now left|now right].
  - split; [intros []|]. intros (? & ? & ? & E & _). discriminate.
  - split; [intros []|]. intros (? & ? & ? & E & _). discriminate.
  - split; [intros []|]. intros (? & ? & ? & E & _). discriminate.
Qed.

Lemma find_all_not_root (m : string -> list attr -> bool) (l : list node) :
  ~ In [] (find_all m l).
Proof. rewrite in_find_all. intros (j & c & q & _ & _ & E). discriminate. Qed.

Lemma get_cons (l : list node) (j : nat) (q : path) :
  q <> [] ->
  get l (j :: q) = match nth_error l j with
                   | Some (Tag _ _ cs) => get cs q
                   | _ => None
                   end.
Proof. destruct q; [congruence|reflexivity]. Qed.

(** What [find_all] refers to is a tag that the filter accepts. *)
Lemma find_all_get (m : string -> list attr -> bool) (p : path) :
  forall l, In p (find_all m l) ->
  exists nm ats cs, get l p = Some (Tag nm ats cs) /\ m nm ats = true.
Proof.
  induction p as [|j q IH]; intros l H.
  - now apply find_all_not_root in H.
  - apply in_find_all in H as (j' & c & q' & Hj & Hq & E).
    injection E as <- <-.
    apply in_find_all_node in Hq as (nm & ats & cs & -> & [[-> Hm]|Hq]).
    + exists nm, ats, cs. cbn. auto.
    + destruct (IH _ Hq) as (nm' & ats' & cs' & G & Hm).
      exists nm', ats', cs'. split; [|assumption].
      rewrite get_cons, Hj; [assumption|].
      intros ->. now apply find_all_not_root in Hq.
Qed.

Lemma find_in (m : string -> list attr -> bool) (l : list node) (p : path) :
  find m l = Some p -> In p (find_all m l).
Proof.
  unfold find. destruct (find_all m l); cbn; [discriminate|].
  intros H. injection H as ->. now left.
Qed.

Lemma find_get (m : string -> list attr -> bool) (l : list node) (p : path) :
  find m l = Some p ->
  exists nm ats cs, get l p = Some (Tag nm ats cs) /\ m nm ats = true.
Proof. intros H. eapply find_all_get, find_in, H. Qed.

Lemma named_one (name nm : string) (ats : list attr) :
  named [name] nm ats = true -> nm = name.
Proof.
  unfold named. cbn. rewrite orb_false_r. apply String.eqb_eq.
Qed.

Lemma get_descend (p : path) :
  forall l nm ats cs, get l p = Some (Tag nm ats cs) -> descend l p = Some cs.
Proof.
  induction p as [|j q IH]; intros l nm ats cs; [discriminate|].
  destruct q as [|k q].
  - cbn. now intros ->.
  - rewrite get_cons by discriminate. cbn [descend].
    destruct (nth_error l j) as [[nm' ats' cs'| | |]|]; try discriminate.
    apply IH.
Qed.

(** The searches below a tag find what the searches from the root find
    there. *)
Lemma find_all_below (m : string -> list attr -> bool) (p : path) :
  forall l cs b, descend l p = Some cs -> In b (find_all m cs) ->
                 In (p ++ b)%list (find_all m l).
Proof.
  induction p as [|j q IH]; intros l cs b D H.
  - cbn in *. now injection D as ->.
  - cbn [descend] in D.
    destruct (nth_error l j) as [[nm ats cs'| | |]|] eqn:E; try discriminate.
    apply in_find_all. exists j, (Tag nm ats cs'), (q ++ b)%list.
    repeat split; [assumption|].
    apply in_find_all_node. exists nm, ats, cs'. split; [reflexivity|].
    right. now apply (IH _ cs).
Qed.

(** *** Changing the contents of a tag *)

Lemma update_nth_compose {A : Type} (f g : A -> A) (i : nat) (l : list A) :
  update_nth i g (update_nth i f l) = update_nth i (fun x => g (f x)) l.
Proof.
  revert i. induction l as [|x l IH]; intros [|i]; cbn; try reflexivity.
  now rewrite IH.
Qed.

Lemma update_nth_ext {A : Type} (f g : A -> A) (i : nat) (l : list A) :
  (forall x, f x = g x) -> update_nth i f l = update_nth i g l.
Proof.
  intros H. revert i. induction l as [|x l IH]; intros [|i]; cbn;
    try reflexivity; [now rewrite H|now rewrite IH].
Qed.

Lemma update_nth_id {A : Type} (f : A -> A) (i : nat) (l : list A) :
  (forall x, f x = x) -> update_nth i f l = l.
Proof.
  intros H. revert i. induction l as [|x l IH]; intros [|i]; cbn;
    try reflexivity; [now rewrite H|now rewrite IH].
Qed.

Lemma nth_error_update_nth {A : Type} (f : A -> A) (i : nat) (l : list A) :
  nth_error (update_nth i f l) i = option_map f (nth_error l i).
Proof.
  revert i. induction l as [|x l IH]; intros [|i]; cbn; try reflexivity.
  apply IH.
Qed.

Lemma update_contents_compose (f g : list node -> list node) (p : path) :
  forall l, update_contents g p (update_contents f p l)
            = update_contents (fun cs => g (f cs)) p l.
Proof.
  induction p as [|j q IH]; intros l; [reflexivity|].
  cbn [update_contents]. rewrite update_nth_compose.
  apply update_nth_ext. intros [nm ats cs| | |]; try reflexivity.
  now rewrite IH.
Qed.

Lemma update_contents_id (f : list node -> list node) (p : path) :
  (forall cs, f cs = cs) -> forall l, update_contents f p l = l.
Proof.
  intros H. induction p as [|j q IH]; intros l; [apply H|].
  cbn [update_contents]. apply update_nth_id.
  intros [nm ats cs| | |]; try reflexivity. now rewrite IH.
Qed.

(** The tag at [p] after its contents have changed. *)
Lemma get_update_contents (f : list node -> list node) (p : path) :
  forall l nm ats cs, get l p = Some (Tag nm ats cs) ->
  get (update_contents f p l) p = Some (Tag nm ats (f cs)).
Proof.
  induction p as [|j q IH]; intros l nm ats cs; [discriminate|].
  destruct q as [|k q].
  - cbn. rewrite nth_error_update_nth. now intros ->.
  - rewrite !get_cons by discriminate.
    cbn [update_contents]. rewrite nth_error_update_nth.
    destruct (nth_error l j) as [[nm' ats' cs'| | |]|]; try discriminate.
    cbn [option_map]. apply IH.
Qed.

End SoupFacts.

(** ** Properties of [replace] *)

Module ReplaceFacts.
Import Str StrFacts.

Lemma mismatch_drop (old h s : string) :
  mismatch old h = true -> drop_prefix old (h ++ s) = None.
Proof.
  revert h. induction old as [|a old IH]; intros [|b h]; cbn;
    try discriminate.
  destruct (Ascii.eqb a b); cbn; [apply IH|reflexivity].
Qed.

Lemma replace_from_clear (old new h s : string) :
  clear_of old h = true ->
  replace_from old new 0 (h ++ s) = h ++ replace_from old new 0 s.
Proof.
  induction h as [|c h IH]; [reflexivity|].
  cbn [clear_of]. intros H. apply andb_true_iff in H as [M C].
  cbn [append replace_from]. unfold startswith.
  pose proof (mismatch_drop old (String c h) s M) as D. cbn [append] in D.
  rewrite D. now rewrite IH.
Qed.

Lemma replace_from_skip (old new x s : string) :
  replace_from old new (String.length x) (x ++ s) = replace_from old new 0 s.
Proof.
  induction x as [|c x IH]; [reflexivity|]. cbn. destruct s; apply IH.
Qed.

Lemma replace_from_hit (old new s : string) (a : ascii) (old' : string) :
  old = String a old' ->
  replace_from old new 0 (old ++ s) = new ++ replace_from old new 0 s.
Proof.
  intros E. subst old. cbn [append replace_from]. unfold startswith.
  pose proof (drop_prefix_app (String a old') s) as D. cbn [append] in D.
  rewrite D.
  replace (String.length (String a old') - 1) with (String.length old')
    by (cbn [String.length]; lia).
  now rewrite replace_from_skip.
Qed.

(** A character that [old] does not have stops every occurrence. *)
Lemma stopped_by (c : ascii) (old x s : string) :
  Soup.has_char c old = false -> startswith old x = false ->
  drop_prefix old (x ++ String c s) = None.
Proof.
  unfold startswith. revert x. induction old as [|a old IH]; intros x H N.
  - discriminate.
  - cbn in H. apply orb_false_iff in H as [Hc Ho].
    destruct x as [|b x]; cbn in *.
    + rewrite Ascii.eqb_sym in Hc. now rewrite Hc.
    + destruct (Ascii.eqb a b); [now apply IH|reflexivity].
Qed.

Lemma replace_from_free (c : ascii) (old new x s : string) :
  Soup.has_char c old = false -> occurs old x = false ->
  replace_from old new 0 (x ++ String c s)
  = x ++ replace_from old new 0 (String c s).
Proof.
  intros Hc. induction x as [|b x IH]; [reflexivity|].
  cbn [occurs]. intros H. apply orb_false_iff in H as [N O].
  cbn [append replace_from]. unfold startswith at 1.
  pose proof (stopped_by c old (String b x) s Hc N) as D. cbn [append] in D.
  rewrite D. now rewrite IH.
Qed.

End ReplaceFacts.

(** ** The default fragment *)

Section DefaultForm.
Import Str StrFacts ReplaceFacts.


Lemma replace_owner (owner : string) :
  replace "REPO_OWNER" owner default_form
  = default_form_head ++ owner ++ "/" ++ "REPO_NAME" ++ default_form_tail.
Proof.
  unfold replace, default_form.
  rewrite replace_from_clear by (vm_compute; reflexivity).
  rewrite (replace_from_hit "REPO_OWNER" owner _ "R" "EPO_OWNER" eq_refl).
  reflexivity.
Qed.

Lemma replace_name (owner name : string) :
  occurs "REPO_NAME" owner = false ->
  replace "REPO_NAME" name
    (default_form_head ++ owner ++ "/" ++ "REPO_NAME" ++ default_form_tail)
  = default_form_head ++ owner ++ "/" ++ name ++ default_form_tail.
Proof.
  intros H. unfold replace.
  rewrite replace_from_clear by (vm_compute; reflexivity). f_equal.
  change ("/" ++ "REPO_NAME" ++ default_form_tail)
    with (String "/" ("REPO_NAME" ++ default_form_tail)).
  rewrite (replace_from_free "/" "REPO_NAME" name owner _ eq_refl H).
  reflexivity.
Qed.

End DefaultForm.

(** ** The fragment extractor *)

Module ExtractorFacts.
Import Soup SoupFacts.

Lemma find_all_below_inv (m : string -> list attr -> bool) (p : path) :
  forall l b, b <> [] -> In (p ++ b)%list (find_all m l) ->
  exists cs, descend l p = Some cs /\ In b (find_all m cs).
Proof.
  induction p as [|j q IH]; intros l b Hb H.
  - exists l. auto.
  - cbn [app] in H. apply in_find_all in H as (j' & c & q' & Hj & Hq & E).
    injection E as <- <-.
    apply in_find_all_node in Hq as (nm & ats & cs & -> & [[E _]|Hq]).
    + destruct q; [cbn in E; congruence|discriminate].
    + destruct (IH _ _ Hb Hq) as (cs' & D & Hin).
      exists cs'. cbn [descend]. now rewrite Hj.
Qed.

Lemma descend_get (p : path) :
  forall l cs, p <> [] -> descend l p = Some cs ->
  exists nm ats, get l p = Some (Tag nm ats cs).
Proof.
  induction p as [|j q IH]; intros l cs Hp D; [congruence|].
  cbn [descend] in D.
  destruct (nth_error l j) as [[nm ats cs'| | |]|] eqn:E; try discriminate.
  destruct q as [|k q].
  - cbn in *. injection D as ->. eauto.
  - rewrite get_cons, E by discriminate. apply IH; [discriminate|assumption].
Qed.

Lemma find_some (m : string -> list attr -> bool) (l : list node) (p : path) :
  In p (find_all m l) -> exists p', find m l = Some p'.
Proof. unfold find. destruct (find_all m l); [intros []|]. cbn. eauto. Qed.

Lemma first_parent_found (soup : list node) (inputs : list path) (p : path) :
  first_parent_with_button soup inputs = Some p ->
  exists q cs b, In q inputs /\ p = parent q /\ descend soup p = Some cs
                 /\ In b (find_all (named ["button"]) cs).
Proof.
  induction inputs as [|q inputs IH]; cbn [first_parent_with_button];
    [discriminate|].
  destruct (descend soup (parent q)) as [cs|] eqn:D.
  - destruct (find (named ["button"]) cs) as [b|] eqn:F.
    + intros H. injection H as <-. exists q, cs, b.
      repeat split; [now left|assumption|now apply find_in].
    + intros H. destruct (IH H) as (q' & cs' & b' & Hin & R).
      exists q', cs', b'. split; [now right|assumption].
  - intros H. destruct (IH H) as (q' & cs' & b' & Hin & R).
    exists q', cs', b'. split; [now right|assumption].
Qed.

Lemma first_parent_exists (soup : list node) (inputs : list path)
      (q : path) (cs : list node) (b : path) :
  In q inputs -> descend soup (parent q) = Some cs ->
  In b (find_all (named ["button"]) cs) ->
  exists p, first_parent_with_button soup inputs = Some p.
Proof.
  intros Hin D Hb. induction inputs as [|q' inputs IH]; [destruct Hin|].
  cbn [first_parent_with_button].
  destruct (descend soup (parent q')) as [cs'|] eqn:D'.
  - destruct (find (named ["button"]) cs') as [b'|] eqn:F; [eauto|].
    destruct Hin as [->|Hin]; [|auto].
    rewrite D in D'. injection D' as <-.
    destruct (find_some _ _ _ Hb) as (p' & E). congruence.
  - destruct Hin as [->|Hin]; [congruence|auto].
Qed.

End ExtractorFacts.


Lemma action_shape (owner name : string) :
  default_form_head ++ owner ++ "/" ++ name ++ default_form_tail
  = default_form_before ++ "<form action=" ++ dq ++ action_url owner name ++ dq
      ++ default_form_after.
Proof.
  unfold default_form_head, default_form_tail, action_url.
  rewrite !StrFacts.append_assoc. reflexivity.
Qed.

Section Extractor.
Import Str Soup SoupFacts ExtractorFacts.
Variable parse : string -> Soup.soup.

(** C3, amended: with the owner and the name configured the extractor
    returns a pair on every input; when it finds its fragment in the page
    it returns a pair whatever the configuration is. *)
Theorem extract_form_returns (owner name html : string) :
  (exists r, extract_form parse (Some owner) (Some name) html = Returns r)
  /\ (forall o n, locate_form (parse html) <> None ->
                  exists r, extract_form parse o n html = Returns r).
Proof.
  unfold extract_form. split.
  - destruct (locate_form (parse html)); eauto.
  - intros o n H. destruct (locate_form (parse html)); [eauto|congruence].
Qed.

(** C8: a page with no form, and with no text input or no button, gets
    the default fragment, whose form action is the issue URL of the
    configured owner and name, and comes back as it was given. *)
Theorem default_fragment (owner name html : string) :
  find (named ["form"]) (parse html) = None ->
  find_all text_inputs (parse html) = []
  \/ find_all (named ["button"]) (parse html) = [] ->
  occurs "REPO_NAME" owner = false ->
  exists before after,
    extract_form parse (Some owner) (Some name) html
    = Returns (before ++ "<form action=" ++ dq ++ action_url owner name ++ dq
                      ++ after, html).
Proof.
  intros Hform Hpair Hown.
  exists default_form_before, default_form_after.
  unfold extract_form, locate_form. rewrite Hform.
  fold text_inputs.
  replace (match find_all text_inputs (parse html) with
           | [] => None
           | _ :: _ =>
               match find_all (named ["button"]) (parse html) with
               | [] => None
               | _ :: _ =>
                   first_parent_with_button (parse html)
                     (find_all text_inputs (parse html))
               end
           end) with (@None path).
  2:{ destruct Hpair as [-> | ->]; [reflexivity|].
      now destruct (find_all text_inputs (parse html)). }
  rewrite replace_owner, (replace_name owner name Hown).
  do 2 f_equal. apply action_shape.
Qed.

Lemma locate_form_parent (soup : list node) (q : path) (b : path) :
  find (named ["form"]) soup = None ->
  In q (find_all text_inputs soup) ->
  In (parent q ++ b)%list (find_all (named ["button"]) soup) -> b <> [] ->
  exists q0 b0 cs,
    locate_form soup = Some (parent q0)
    /\ In q0 (find_all text_inputs soup)
    /\ descend soup (parent q0) = Some cs
    /\ In b0 (find_all (named ["button"]) cs).
Proof.
  intros Hform Hq Hb Hne.
  destruct (find_all_below_inv _ _ _ _ Hne Hb) as (cs & D & Hin).
  destruct (first_parent_exists soup _ q cs b Hq D Hin) as (p & Hp).
  destruct (first_parent_found _ _ _ Hp) as (q0 & cs0 & b0 & Hq0 & -> & D0 & Hb0).
  exists q0, b0, cs0. repeat split; try assumption.
  unfold locate_form. rewrite Hform. fold text_inputs.
  destruct (find_all text_inputs soup); [destruct Hq|].
  destruct (find_all (named ["button"]) soup); [destruct Hb|assumption].
Qed.

(** Where the loop over the text inputs does find a fragment: in a page
    with no form whose text inputs all stand inside tags, when the parent of
    some text input has a button below it, the fragment is the parent of a
    text input, a tag that has a button below it; it is returned as markup
    and the page comes back without it. *)
Theorem input_parent_fragment (o n : option string) (html : string)
        (q b : path) :
  find (named ["form"]) (parse html) = None ->
  In q (find_all text_inputs (parse html)) ->
  In (parent q ++ b)%list (find_all (named ["button"]) (parse html)) ->
  b <> [] ->
  (forall q', In q' (find_all text_inputs (parse html)) -> parent q' <> []) ->
  exists q0 b0 t,
    In q0 (find_all text_inputs (parse html))
    /\ In (parent q0 ++ b0)%list (find_all (named ["button"]) (parse html))
    /\ b0 <> []
    /\ get (parse html) (parent q0) = Some t
    /\ extract_form parse o n html
       = Returns (to_string t,
                  soup_to_string (extract (parent q0) (parse html))).
Proof.
  intros Hform Hq Hb Hne Htop.
  destruct (locate_form_parent _ q b Hform Hq Hb Hne)
    as (q0 & b0 & cs & L & Hq0 & D & Hb0).
  destruct (descend_get _ _ _ (Htop _ Hq0) D) as (nm & ats & G).
  exists q0, b0, (Tag nm ats cs). repeat split; try assumption.
  - now apply (find_all_below _ _ _ cs).
  - intros ->. now apply find_all_not_root in Hb0.
  - unfold extract_form. rewrite L. unfold str_at. rewrite G.
    destruct (parent q0) eqn:E; [|reflexivity].
    now apply Htop in Hq0.
Qed.

End Extractor.


(** ** Properties of the count *)

Module CountFacts.
Import Soup SoupFacts Count.

Lemma node_eqb_size (a : node) : forall b, node_eqb a b = true -> size a = size b.
Proof.
  induction a as [nm ats cs IH|s|s|s] using node_ind';
    intros [nm' ats' cs'|s'|s'|s']; cbn [node_eqb size]; try discriminate;
    try reflexivity.
  intros H. apply andb_true_iff in H as [_ H]. f_equal.
  revert cs' H. induction IH as [|x l Hx _ IHl]; intros [|y l']; cbn;
    try discriminate; [reflexivity|].
  intros H. apply andb_true_iff in H as [H1 H2].
  specialize (Hx _ H1). specialize (IHl _ H2). unfold list_sum in *. lia.
Qed.

Lemma attr_eqb_refl (a : attr) : attr_eqb a a = true.
Proof. unfold attr_eqb. now rewrite !String.eqb_refl. Qed.

Lemma node_eqb_refl (a : node) : node_eqb a a = true.
Proof.
  induction a as [nm ats cs IH|s|s|s] using node_ind'; cbn [node_eqb];
    try apply String.eqb_refl.
  rewrite String.eqb_refl. cbn [andb].
  apply andb_true_iff. split.
  - induction ats as [|a ats IHa]; cbn; [reflexivity|].
    now rewrite attr_eqb_refl.
  - induction IH as [|x l Hx _ IHl]; [reflexivity|].
    cbn [list_eqb]. now rewrite Hx.
Qed.

(** A smaller tree holds no copy of [f]. *)
Lemma count_in_small (f n : node) : size n < size f -> count_in f n = 0.
Proof.
  induction n as [nm ats cs IH|s|s|s] using node_ind'; cbn [count_in size];
    intros L.
  - assert (C : list_sum (map (count_in f) cs) = 0).
    { assert (L' : list_sum (map size cs) < size f) by lia. clear L.
      unfold list_sum in *.
      induction IH as [|x l Hx _ IHl]; [reflexivity|].
      cbn [map fold_right] in *. rewrite Hx by lia.
      cbn [Nat.add]. apply IHl. lia. }
    rewrite C. destruct (node_eqb (Tag nm ats cs) f) eqn:E; [|reflexivity].
    apply node_eqb_size in E. cbn [size] in E. lia.
  - destruct (node_eqb (NavigableString s) f) eqn:E; [|reflexivity].
    apply node_eqb_size in E. cbn in E. lia.
  - destruct (node_eqb (Comment s) f) eqn:E; [|reflexivity].
    apply node_eqb_size in E. cbn in E. lia.
  - destruct (node_eqb (Doctype s) f) eqn:E; [|reflexivity].
    apply node_eqb_size in E. cbn in E. lia.
Qed.

Lemma count_small (f : node) (l : list node) :
  list_sum (map size l) < size f -> count f l = 0.
Proof.
  unfold count, list_sum. induction l as [|x l IH]; cbn [map fold_right];
    [reflexivity|].
  intros L. rewrite count_in_small by lia. apply IH. lia.
Qed.

(** [f] holds one copy of itself. *)
Lemma count_in_self (f : node) : count_in f f = 1.
Proof.
  destruct f as [nm ats cs|s|s|s]; cbn [count_in];
    rewrite node_eqb_refl; try reflexivity.
  change (list_sum (map (count_in (Tag nm ats cs)) cs))
    with (count (Tag nm ats cs) cs).
  rewrite count_small; [reflexivity|]. cbn [size]. lia.
Qed.

(** A tag whose contents hold a copy of [f] is not [f]. *)
Lemma count_in_around (f : node) (nm : string) (ats : list attr) (cs : list node) :
  count f cs = 1 -> count_in f (Tag nm ats cs) = 1.
Proof.
  intros H. cbn [count_in]. fold (count f cs). rewrite H.
  destruct (node_eqb (Tag nm ats cs) f) eqn:E; [|reflexivity].
  exfalso. apply node_eqb_size in E. cbn [size] in E.
  destruct f as [nm' ats' cs'|s|s|s].
  - destruct (Nat.lt_ge_cases (list_sum (map size cs)) (size (Tag nm' ats' cs')))
      as [L|L].
    + rewrite (count_small _ _ L) in H. discriminate.
    + lia.
  - cbn in E. assert (L : list_sum (map size cs) < size (NavigableString s))
      by (cbn; lia). rewrite (count_small _ _ L) in H. discriminate.
  - cbn in E. assert (L : list_sum (map size cs) < size (Comment s))
      by (cbn; lia). rewrite (count_small _ _ L) in H. discriminate.
  - cbn in E. assert (L : list_sum (map size cs) < size (Doctype s))
      by (cbn; lia). rewrite (count_small _ _ L) in H. discriminate.
Qed.

Lemma count_app (f : node) (l1 l2 : list node) :
  count f (l1 ++ l2)%list = count f l1 + count f l2.
Proof. unfold count. now rewrite map_app, list_sum_app. Qed.

Lemma count_update_nth (f : node) (h : node -> node) (j : nat) :
  forall l x, nth_error l j = Some x ->
  count f (update_nth j h l) + count_in f x = count f l + count_in f (h x).
Proof.
  unfold count, list_sum.
  induction j as [|j IH]; intros [|y l] x; cbn [nth_error update_nth map fold_right];
    try discriminate.
  - intros H. injection H as ->. lia.
  - intros H. specialize (IH _ _ H). lia.
Qed.

Lemma count_zero_nth (f : node) (j : nat) :
  forall l x, nth_error l j = Some x -> count f l = 0 -> count_in f x = 0.
Proof.
  unfold count, list_sum.
  induction j as [|j IH]; intros [|y l] x; cbn [nth_error map fold_right];
    try discriminate.
  - intros H. injection H as ->. lia.
  - intros H Z. apply (IH _ _ H). lia.
Qed.

(** A change that brings one copy of [f] into the contents of one tag of
    a tree that holds none brings one copy into the tree. *)
Lemma count_update_contents (f : node) (g : list node -> list node) (p : path) :
  (forall cs, count f cs = 0 -> count f (g cs) = 1) ->
  forall l nm ats cs, get l p = Some (Tag nm ats cs) ->
  count f l = 0 -> count f (update_contents g p l) = 1.
Proof.
  intros Hg. induction p as [|j q IH]; intros l nm ats cs G Z; [discriminate|].
  cbn [update_contents].
  destruct q as [|k q].
  - cbn in G. pose proof (count_zero_nth _ _ _ _ G Z) as Zx.
    pose proof (count_update_nth f
                  (fun n => match n with
                            | Tag nm ats cs => Tag nm ats (update_contents g [] cs)
                            | other => other
                            end) _ _ _ G) as U.
    cbn [update_contents] in U.
    assert (Zc : count f cs = 0).
    { cbn [count_in] in Zx. fold (count f cs) in Zx. lia. }
    rewrite (count_in_around f nm ats (g cs) (Hg _ Zc)) in U.
    cbn [update_contents]. lia.
  - rewrite get_cons in G by discriminate.
    destruct (nth_error l j) as [[nm' ats' cs'| | |]|] eqn:E; try discriminate.
    pose proof (count_zero_nth _ _ _ _ E Z) as Zx.
    pose proof (count_update_nth f
                  (fun n => match n with
                            | Tag nm ats cs =>
                                Tag nm ats (update_contents g (k :: q) cs)
                            | other => other
                            end) _ _ _ E) as U.
    cbn beta iota in U.
    assert (Zc : count f cs' = 0).
    { cbn [count_in] in Zx. fold (count f cs') in Zx. lia. }
    rewrite (count_in_around f nm' ats' _ (IH _ _ _ _ G Zc)) in U.
    lia.
Qed.

End CountFacts.

(** ** Properties of the output *)

Module OutputFacts.
Import Soup SoupFacts StrFacts.


Lemma concat_cons (x : string) (l : list string) :
  String.concat EmptyString (x :: l) = x ++ String.concat EmptyString l.
Proof. destruct l; cbn; [now rewrite append_nil_r|reflexivity]. Qed.

Lemma decode_list_app (raw : bool) (l1 l2 : list node) :
  decode_list raw (l1 ++ l2) = decode_list raw l1 ++ decode_list raw l2.
Proof.
  unfold decode_list. induction l1 as [|x l1 IH]; [reflexivity|].
  cbn [app map]. now rewrite !concat_cons, IH, append_assoc.
Qed.

Lemma decode_list_cons (raw : bool) (x : node) (l : list node) :
  decode_list raw (x :: l) = decode raw x ++ decode_list raw l.
Proof. unfold decode_list. cbn [map]. apply concat_cons. Qed.

Lemma soup_to_string_decode (l : list node) :
  soup_to_string l = decode_list false l.
Proof. reflexivity. Qed.

(** The markup of a tag that is no empty-element tag, or has contents. *)
Lemma decode_tag (raw : bool) (nm : string) (ats : list attr) (cs : list node) :
  can_be_empty_element nm = false \/ cs <> [] ->
  decode raw (Tag nm ats cs)
  = ("<" ++ nm ++ decode_attrs ats ++ ">")
      ++ decode_list (cdata_containing nm) cs ++ "</" ++ nm ++ ">".
Proof.
  intros H. cbn [decode]. destruct cs as [|c cs].
  - destruct H as [->|H]; [|congruence].
    unfold decode_list. cbn [map String.concat].
    now rewrite !append_assoc.
  - unfold decode_list. now rewrite !append_assoc.
Qed.

Lemma nth_error_split_update {A : Type} (j : nat) :
  forall (l : list A) (x : A), nth_error l j = Some x ->
  exists a c, l = (a ++ x :: c)%list
              /\ forall h, update_nth j h l = (a ++ h x :: c)%list.
Proof.
  induction j as [|j IH]; intros [|y l] x; cbn [nth_error]; try discriminate.
  - intros H. injection H as ->. exists [], l. auto.
  - intros H. destruct (IH _ _ H) as (a & c & -> & U).
    exists (y :: a), c. split; [reflexivity|].
    intros h. cbn. now rewrite U.
Qed.

Lemma update_contents_nonempty (g : list node -> list node) (q : path) :
  q <> [] -> forall cs, cs <> [] -> update_contents g q cs <> [].
Proof.
  intros Hq cs Hcs. destruct q as [|k q]; [congruence|].
  cbn [update_contents]. destruct cs as [|c cs]; [congruence|].
  destruct k; cbn; discriminate.
Qed.

(** What is put first in the contents of a tag comes out right after its
    start tag; the rest of the markup stays as it was. *)
Lemma insert_first_markup (new : list node) (p : path) :
  forall (raw : bool) (l : list node) (nm : string) (ats : list attr)
         (cs : list node),
  get l p = Some (Tag nm ats cs) -> can_be_empty_element nm = false ->
  exists s1 s2, decode_list raw l = s1 ++ s2
                /\ decode_list raw (insert_first new p l)
                   = s1 ++ decode_list (cdata_containing nm) new ++ s2.
Proof.
  unfold insert_first.
  induction p as [|j q IH]; intros raw l nm ats cs G V; [discriminate|].
  cbn [update_contents]. destruct q as [|k q].
  - cbn in G. destruct (nth_error_split_update _ _ _ G) as (a & c & -> & U).
    rewrite U. cbn [update_contents].
    exists (decode_list raw a ++ "<" ++ nm ++ decode_attrs ats ++ ">"),
      (decode_list (cdata_containing nm) cs ++ ("</" ++ nm ++ ">")
       ++ decode_list raw c).
    rewrite !decode_list_app, !decode_list_cons, !decode_tag by auto.
    rewrite decode_list_app. rewrite !append_assoc. auto.
  - rewrite get_cons in G by discriminate.
    destruct (nth_error l j) as [[nm' ats' cs'| | |]|] eqn:E; try discriminate.
    destruct (nth_error_split_update _ _ _ E) as (a & c & -> & U).
    rewrite U.
    assert (Hcs : cs' <> []).
    { intros ->. destruct q, k; cbn in G; discriminate. }
    destruct (IH (cdata_containing nm') _ _ _ _ G V) as (s1 & s2 & E1 & E2).
    exists (decode_list raw a ++ ("<" ++ nm' ++ decode_attrs ats' ++ ">") ++ s1),
      (s2 ++ ("</" ++ nm' ++ ">") ++ decode_list raw c).
    rewrite !decode_list_app, !decode_list_cons.
    rewrite (decode_tag raw nm' ats' cs') by auto.
    rewrite (decode_tag raw nm' ats' (update_contents _ (k :: q) cs'))
      by (right; apply update_contents_nonempty; [discriminate|assumption]).
    rewrite E1, E2. rewrite !append_assoc. auto.
Qed.

End OutputFacts.

(** ** The fragment re-inserter *)

Section Reinserter.
Import Soup SoupFacts.
Variable parse : string -> Soup.soup.

(** C9: when the candidate has a body, the output is the candidate with
    the fragment's elements put first in the contents of its first body:
    taking them off again gives back the candidate, and the markup of the
    output is the markup of the candidate with the markup of the fragment
    put in at one place. *)
Theorem reinsert_body_frame (form_html new_html : string) (body : path) :
  find (named ["body"]) (parse new_html) = Some body ->
  exists ats cs s1 s2,
    let fe := form_element_of (parse form_html) in
    let out := insert_first fe body (parse new_html) in
    add_form_back parse form_html new_html = Returns (soup_to_string out)
    /\ get (parse new_html) body = Some (Tag "body" ats cs)
    /\ get out body = Some (Tag "body" ats (fe ++ cs)%list)
    /\ update_contents (skipn (List.length fe)) body out = parse new_html
    /\ soup_to_string (parse new_html) = s1 ++ s2
    /\ soup_to_string out = s1 ++ soup_to_string fe ++ s2.
Proof.
  intros H. destruct (find_get _ _ _ H) as (nm & ats & cs & G & M).
  apply named_one in M. subst nm.
  destruct (OutputFacts.insert_first_markup
              (form_element_of (parse form_html)) body false _ _ _ _ G eq_refl)
    as (s1 & s2 & E1 & E2).
  exists ats, cs, s1, s2. cbn zeta.
  repeat split.
  - unfold add_form_back. now rewrite H.
  - assumption.
  - unfold insert_first. now apply get_update_contents.
  - unfold insert_first. rewrite update_contents_compose.
    apply update_contents_id. intros l.
    now rewrite skipn_app, skipn_all, Nat.sub_diag.
  - exact E1.
  - exact E2.
Qed.

Lemma get_child (p : path) :
  forall l nm ats cs i c, get l p = Some (Tag nm ats cs) ->
  nth_error cs i = Some c -> get l (p ++ [i])%list = Some c.
Proof.
  induction p as [|j q IH]; intros l nm ats cs i c G N; [discriminate|].
  cbn [app]. rewrite get_cons by (destruct q; discriminate).
  destruct q as [|k q].
  - cbn in G. rewrite G. exact N.
  - rewrite get_cons in G by discriminate.
    destruct (nth_error l j) as [[nm' ats' cs'| | |]|]; try discriminate.
    now apply (IH _ nm ats cs).
Qed.

Lemma form_element_tag (form_html : string) (p : path) :
  find any_tag (parse form_html) = Some p ->
  exists f, get (parse form_html) p = Some f
            /\ form_element_of (parse form_html) = [f].
Proof.
  intros H. destruct (find_get _ _ _ H) as (nm & ats & cs & G & _).
  exists (Tag nm ats cs). split; [assumption|].
  unfold form_element_of. now rewrite H, G.
Qed.


(** The output when the candidate has neither a body nor an html tag. *)
Lemma add_form_back_bare (form_html new_html : string) :
  parse skeleton_html = skeleton ->
  find (named ["body"]) (parse new_html) = None ->
  find (named ["html"]) (parse new_html) = None ->
  add_form_back parse form_html new_html
  = Returns (soup_to_string
               [Tag "html" []
                  [Tag "body" []
                     (form_element_of (parse form_html)
                      ++ recovered (parse new_html))%list]]).
Proof.
  intros Hs Hb Hh. unfold add_form_back. rewrite Hb, Hh, Hs. reflexivity.
Qed.

(** C2, amended: for a fragment whose markup has a tag, the output has a
    body tag whose first child is the first tag of the fragment; that
    body stands below an html tag when the candidate has no body; and
    when the candidate has a body or an html tag and holds no copy of that
    tag, the output holds exactly one. *)
Theorem reinsert_guarantee (form_html new_html : string) (p : path) :
  parse skeleton_html = skeleton ->
  find any_tag (parse form_html) = Some p ->
  exists f out pb ats cs,
    get (parse form_html) p = Some f
    /\ add_form_back parse form_html new_html = Returns (soup_to_string out)
    /\ get out pb = Some (Tag "body" ats (f :: cs))
    /\ (find (named ["body"]) (parse new_html) = None ->
        exists ph b hats hcs,
          pb = (ph ++ b)%list /\ b <> []
          /\ get out ph = Some (Tag "html" hats hcs))
    /\ (find (named ["body"]) (parse new_html) <> None
        \/ find (named ["html"]) (parse new_html) <> None ->
        Count.count f (parse new_html) = 0 -> Count.count f out = 1).
Proof.
  intros Hs Hp. destruct (form_element_tag _ _ Hp) as (f & Gf & Ef).
  exists f.
  destruct (find (named ["body"]) (parse new_html)) as [body|] eqn:Hb.
  - destruct (find_get _ _ _ Hb) as (nm & ats & cs & G & M).
    apply named_one in M. subst nm.
    exists (insert_first [f] body (parse new_html)), body, ats, cs.
    split; [assumption|]. split; [|split; [|split]].
    + unfold add_form_back. now rewrite Hb, Ef.
    + unfold insert_first. now rewrite (get_update_contents _ _ _ _ _ _ G).
    + discriminate.
    + intros _ Z. unfold insert_first.
      apply (CountFacts.count_update_contents f _ body) with (nm := "body")
                                                       (ats := ats) (cs := cs);
        try assumption.
      intros l Zl. cbn [app]. unfold Count.count in *. cbn [map list_sum fold_right].
      rewrite CountFacts.count_in_self. unfold list_sum in Zl. now rewrite Zl.
  - destruct (find (named ["html"]) (parse new_html)) as [ph|] eqn:Hh.
    + destruct (find_get _ _ _ Hh) as (nm & hats & hcs & G & M).
      apply named_one in M. subst nm.
      set (B := Tag "body" [] [f]).
      exists (append [B] ph (parse new_html)), (ph ++ [List.length hcs])%list,
        [], [].
      assert (Go : get (append [B] ph (parse new_html)) ph
                   = Some (Tag "html" hats (hcs ++ [B])%list)).
      { unfold append. now rewrite (get_update_contents _ _ _ _ _ _ G). }
      split; [assumption|]. split; [|split; [|split]].
      * unfold add_form_back. now rewrite Hb, Hh, Ef.
      * apply (get_child _ _ _ _ _ _ _ Go).
        rewrite nth_error_app2, Nat.sub_diag by lia. reflexivity.
      * intros _. exists ph, [List.length hcs], hats, (hcs ++ [B])%list.
        repeat split; [discriminate|assumption].
      * intros _ Z. unfold append.
        apply (CountFacts.count_update_contents f _ ph) with (nm := "html")
                                                       (ats := hats) (cs := hcs);
          try assumption.
        intros l Zl. rewrite CountFacts.count_app, Zl. cbn [Nat.add].
        unfold Count.count. cbn [map list_sum fold_right].
        rewrite Nat.add_0_r. apply CountFacts.count_in_around.
        unfold Count.count. cbn [map list_sum fold_right].
        rewrite CountFacts.count_in_self. reflexivity.
    + exists [Tag "html" [] [Tag "body" [] ([f] ++ recovered (parse new_html))%list]],
        [0; 0], [], (recovered (parse new_html)).
      split; [assumption|]. split; [|split; [|split]].
      * rewrite (add_form_back_bare _ _ Hs Hb Hh). now rewrite Ef.
      * reflexivity.
      * intros _. exists [0], [0], [],
          [Tag "body" [] ([f] ++ recovered (parse new_html))%list].
        repeat split. discriminate.
      * intros [H|H]; congruence.
Qed.

(** C1, amended: for a page with a form, where the markup of the page
    without the form is read by the parser with a body (the body did not
    stand inside the form) and the markup of the form is read as a tag with
    that same markup: extracting and putting back gives the page without
    the form, as the parser reads it, with that tag put first in its first
    body (taking it off again gives that page back), and the markup of the
    result is the markup of that page with the markup of the fragment, as
    extracted, put in at one place. *)
Theorem form_round_trip (o n : option string) (html : string)
        (pf pb pt : path) (form f : node) :
  let rest := soup_to_string (extract pf (parse html)) in
  find (named ["form"]) (parse html) = Some pf ->
  get (parse html) pf = Some form ->
  find (named ["body"]) (parse rest) = Some pb ->
  find any_tag (parse (to_string form)) = Some pt ->
  get (parse (to_string form)) pt = Some f ->
  to_string f = to_string form ->
  let out := insert_first [f] pb (parse rest) in
  exists ats cs s1 s2,
    extract_form parse o n html = Returns (to_string form, rest)
    /\ add_form_back parse (to_string form) rest = Returns (soup_to_string out)
    /\ get (parse rest) pb = Some (Tag "body" ats cs)
    /\ get out pb = Some (Tag "body" ats (f :: cs))
    /\ update_contents (skipn 1) pb out = parse rest
    /\ soup_to_string (parse rest) = s1 ++ s2
    /\ soup_to_string out = s1 ++ to_string form ++ s2.
Proof.
  intros rest Hf Gf Hb Ht Gt Et. cbn zeta.
  destruct (find_get _ _ _ Hf) as (nm & fats & fcs & Gf' & _).
  rewrite Gf in Gf'. injection Gf' as ->.
  destruct (find_get _ _ _ Hb) as (nm' & ats & cs & G & Mb).
  apply named_one in Mb. subst nm'.
  destruct (OutputFacts.insert_first_markup [f] pb false _ _ _ _ G eq_refl)
    as (s1 & s2 & E1 & E2).
  exists ats, cs, s1, s2. repeat split.
  - unfold extract_form, locate_form. rewrite Hf. unfold str_at. rewrite Gf.
    destruct pf; [|reflexivity].
    now apply find_in, find_all_not_root in Hf.
  - unfold add_form_back. rewrite Hb.
    unfold form_element_of. rewrite Ht, Gt. reflexivity.
  - exact G.
  - unfold insert_first.
    exact (get_update_contents (fun l => [f] ++ l)%list pb _ _ _ _ G).
  - unfold insert_first. rewrite update_contents_compose.
    apply update_contents_id. intros l. reflexivity.
  - exact E1.
  - rewrite OutputFacts.soup_to_string_decode, E2, <- Et.
    unfold Soup.decode_list. cbn [map String.concat]. reflexivity.
Qed.

End Reinserter.

(** ** Properties of the recovery loop *)

Module RecoveryFacts.
Import Soup Obj Recovery.

Lemma all_ids_app (l1 l2 : list obj) :
  all_ids (l1 ++ l2) = (all_ids l1 ++ all_ids l2)%list.
Proof. apply flat_map_app. Qed.

Lemma path_eqb_refl (p : path) : path_eqb p p = true.
Proof. unfold path_eqb. destruct (list_eq_dec Nat.eq_dec p p); congruence. Qed.

Lemma path_eqb_neq (p q : path) : p <> q -> path_eqb p q = false.
Proof. unfold path_eqb. destruct (list_eq_dec Nat.eq_dec p q); congruence. Qed.

Lemma first_some_app {A : Type} (l1 l2 : list (option A)) :
  first_some (l1 ++ l2)
  = match first_some l1 with Some x => Some x | None => first_some l2 end.
Proof.
  induction l1 as [|[x|] l1 IH]; cbn; [reflexivity|reflexivity|exact IH].
Qed.

Lemma lookup_app (id : path) (l1 l2 : list obj) :
  lookup id (l1 ++ l2)
  = match lookup id l1 with Some x => Some x | None => lookup id l2 end.
Proof. unfold lookup. now rewrite map_app, first_some_app. Qed.

(** An origin that a tree does not have is found nowhere in it and leaves
    it as it is. *)
Lemma absent_obj (id : path) (o : obj) :
  ~ In id (all_ids_node o) ->
  lookup_obj id o = None /\ without_obj id o = o /\ is_obj id o = false.
Proof.
  induction o as [id' nm ats cs IH|s|s|s] using obj_ind'; cbn; [|auto..].
  intros H.
  assert (Hne : id' <> id) by tauto.
  assert (Hcs : ~ In id (flat_map all_ids_node cs)) by tauto.
  rewrite (path_eqb_neq _ _ Hne).
  assert (R : first_some (map (lookup_obj id) cs) = None
              /\ filter (fun c => negb (is_obj id c)) (map (without_obj id) cs) = cs).
  { clear H Hne. induction IH as [|x l Hx _ IHl]; [auto|].
    cbn [flat_map] in Hcs. rewrite in_app_iff in Hcs.
    destruct (Hx ltac:(tauto)) as (L & W & I).
    destruct (IHl ltac:(tauto)) as (L' & W').
    cbn. rewrite L, W, I, W'. auto. }
  destruct R as [-> ->]. auto.
Qed.

Lemma absent (id : path) (l : list obj) :
  ~ In id (all_ids l) -> lookup id l = None /\ without id l = l.
Proof.
  unfold lookup, without, all_ids. induction l as [|x l IH]; [auto|].
  cbn [flat_map]. rewrite in_app_iff. intros H.
  destruct (absent_obj id x ltac:(tauto)) as (L & W & I).
  destruct (IH ltac:(tauto)) as (L' & W').
  cbn. rewrite L, W, I, W'. auto.
Qed.

Lemma without_app (id : path) (l1 l2 : list obj) :
  without id (l1 ++ l2) = (without id l1 ++ without id l2)%list.
Proof. unfold without. now rewrite map_app, filter_app. Qed.

Lemma lookup_single (id : path) (o : obj) : lookup id [o] = lookup_obj id o.
Proof. unfold lookup. cbn. now destruct (lookup_obj id o). Qed.

Lemma without_single (id id' : path) (nm : string) (ats : list attr)
      (cs : list obj) :
  id' <> id ->
  without id [OTag id' nm ats cs] = [OTag id' nm ats (without id cs)].
Proof.
  intros H. unfold without. cbn. now rewrite (path_eqb_neq _ _ H).
Qed.

Lemma lookup_around (id : path) (l x r : list obj) :
  ~ In id (all_ids l) -> ~ In id (all_ids r) ->
  lookup id (l ++ x ++ r) = lookup id x.
Proof.
  intros Hl Hr. rewrite !lookup_app.
  destruct (absent id l Hl) as [-> _]. destruct (absent id r Hr) as [-> _].
  now destruct (lookup id x).
Qed.

Lemma without_around (id : path) (l x r : list obj) :
  ~ In id (all_ids l) -> ~ In id (all_ids r) ->
  without id (l ++ x ++ r) = (l ++ without id x ++ r)%list.
Proof.
  intros Hl Hr. rewrite !without_app.
  destruct (absent id l Hl) as [_ ->]. now destruct (absent id r Hr) as [_ ->].
Qed.

(** An origin that the surroundings do not have is looked for in the open
    place only. *)
Lemma lookup_fill (id : path) (k : ctx) :
  ~ In id (ctx_ids k) ->
  forall x, lookup id (fst (fill k x) ++ snd (fill k x)) = lookup id x.
Proof.
  induction k as [moved l r|l r rest|k IH id' nm ats l r]; cbn [ctx_ids fill fst snd];
    intros H x.
  - rewrite !in_app_iff in H. rewrite lookup_app.
    destruct (absent id moved ltac:(tauto)) as [-> _].
    apply lookup_around; tauto.
  - rewrite !in_app_iff in H. rewrite lookup_app.
    rewrite (lookup_around id l x r) by tauto.
    destruct (absent id rest ltac:(tauto)) as [-> _].
    now destruct (lookup id x).
  - cbn [In] in H. rewrite !in_app_iff in H.
    rewrite IH by tauto. rewrite lookup_single. cbn [lookup_obj].
    rewrite path_eqb_neq by tauto.
    apply (lookup_around id l x r); tauto.
Qed.

Lemma without_fill (id : path) (k : ctx) :
  ~ In id (ctx_ids k) ->
  forall x, (without id (fst (fill k x)), without id (snd (fill k x)))
            = fill k (without id x).
Proof.
  induction k as [moved l r|l r rest|k IH id' nm ats l r]; cbn [ctx_ids fill fst snd];
    intros H x.
  - rewrite !in_app_iff in H.
    destruct (absent id moved ltac:(tauto)) as [_ ->].
    now rewrite without_around by tauto.
  - rewrite !in_app_iff in H.
    destruct (absent id rest ltac:(tauto)) as [_ ->].
    now rewrite without_around by tauto.
  - cbn [In] in H. rewrite !in_app_iff in H.
    rewrite IH by tauto. rewrite without_single by tauto.
    now rewrite without_around by tauto.
Qed.

Lemma fill_push (e : list obj) (k : ctx) :
  forall x, fill (push e k) x = ((fst (fill k x) ++ e)%list, snd (fill k x)).
Proof.
  induction k as [moved l r|l r rest|k IH id' nm ats l r]; cbn [push fill fst snd];
    intros x; [reflexivity| |apply IH].
  now rewrite !app_assoc.
Qed.

Lemma fill_focus (L R : list obj) (k : ctx) (x : list obj) :
  fill (focus L R k) x = fill k (L ++ x ++ R).
Proof. destruct k; cbn [focus fill]; now rewrite <- !app_assoc. Qed.

Lemma push_focus (e L R : list obj) (k : ctx) :
  push e (focus L R k) = focus L R (push e k).
Proof. destruct k; cbn [focus push]; try reflexivity. now rewrite app_assoc. Qed.

Lemma push_push (e e' : list obj) (k : ctx) :
  push e' (push e k) = push (e ++ e') k.
Proof.
  induction k as [moved l r|l r rest|k IH id' nm ats l r]; cbn [push];
    [now rewrite app_assoc|now rewrite app_assoc|now rewrite IH].
Qed.

Lemma fill_push_nil (k : ctx) (x : list obj) : fill (push [] k) x = fill k x.
Proof. rewrite fill_push, app_nil_r. now destruct (fill k x). Qed.

Lemma ctx_ids_focus (id : path) (L R : list obj) (k : ctx) :
  In id (ctx_ids (focus L R k)) ->
  In id (ctx_ids k) \/ In id (all_ids L) \/ In id (all_ids R).
Proof.
  destruct k; cbn [focus ctx_ids In]; rewrite ?all_ids_app, ?in_app_iff;
    rewrite ?all_ids_app, ?in_app_iff; tauto.
Qed.

Lemma ctx_ids_push (id : path) (e : list obj) (k : ctx) :
  In id (ctx_ids (push e k)) -> In id (ctx_ids k) \/ In id (all_ids e).
Proof.
  induction k as [moved l r|l r rest|k IH id' nm ats l r]; cbn [push ctx_ids In];
    rewrite ?all_ids_app, ?in_app_iff; rewrite ?all_ids_app, ?in_app_iff;
    tauto.
Qed.

Lemma all_ids_fill (id : path) (k : ctx) :
  forall x, In id (all_ids (fst (fill k x)) ++ all_ids (snd (fill k x))) ->
            In id (ctx_ids k) \/ In id (all_ids x).
Proof.
  induction k as [moved l r|l r rest|k IH id' nm ats l r]; cbn [fill ctx_ids fst snd];
    intros x H.
  - rewrite ?all_ids_app, ?in_app_iff in *. rewrite ?all_ids_app, ?in_app_iff in *.
    tauto.
  - rewrite ?all_ids_app, ?in_app_iff in *. rewrite ?all_ids_app, ?in_app_iff in *.
    tauto.
  - apply IH in H. unfold all_ids in H. cbn [flat_map all_ids_node] in H.
    rewrite app_nil_r in H. fold (all_ids (l ++ x ++ r)) in H.
    cbn [In] in *. rewrite !all_ids_app, !in_app_iff in H.
    rewrite !in_app_iff. tauto.
Qed.

(** The object leaves the open place and goes last among the moved ones. *)
Lemma move_fill (id : path) (k : ctx) (x : list obj) (t : obj) :
  ~ In id (ctx_ids k) -> lookup id x = Some t ->
  move (fill k x) id = fill (push [t] k) (without id x).
Proof.
  intros H L. rewrite fill_push, <- (without_fill id k H). cbn [fst snd].
  pose proof (lookup_fill id k H x) as E.
  destruct (fill k x) as [B C]. cbn [fst snd] in *.
  unfold move. now rewrite E, L.
Qed.

Lemma NoDup_app_disjoint {A : Type} (l1 l2 : list A) :
  NoDup (l1 ++ l2) -> forall a, In a l1 -> ~ In a l2.
Proof.
  induction l1 as [|x l1 IH]; cbn; [tauto|].
  intros H a [->|Ha] Hin.
  - apply NoDup_cons_iff in H as [H _]. apply H, in_or_app. now right.
  - apply NoDup_cons_iff in H as [_ H]. now apply (IH H a).
Qed.

Section Loop.
Variable m : string -> list attr -> bool.

Lemma oprune_ids (id : path) (o : obj) :
  In id (all_ids_node (oprune m o)) -> In id (all_ids_node o).
Proof.
  induction o as [id' nm ats cs IH|s|s|s] using obj_ind'; cbn [oprune all_ids_node];
    [|tauto..].
  intros [->|H]; [now left|]. right.
  induction IH as [|x l Hx _ IHl]; [assumption|].
  cbn [flat_map] in *. rewrite in_app_iff.
  destruct (omatches m x); cbn [app flat_map all_ids_node] in H.
  - right. now apply IHl.
  - rewrite in_app_iff in H. destruct H as [H|H]; [left; now apply Hx|].
    right. now apply IHl.
Qed.

Lemma oprune_list_ids (id : path) (l : list obj) :
  In id (all_ids (oprune_list m l)) -> In id (all_ids l).
Proof.
  unfold all_ids, oprune_list. induction l as [|x l IH]; [tauto|].
  cbn [flat_map]. rewrite flat_map_app, !in_app_iff.
  unfold oprune_here at 1. destruct (omatches m x); cbn [flat_map].
  - intros [[]|H]. right. now apply IH.
  - rewrite app_nil_r. intros [H|H]; [left; now apply oprune_ids|].
    right. now apply IH.
Qed.

Lemma ocollect_node_ids (id : path) (o : obj) :
  In id (all_ids (ocollect_node m o)) -> In id (all_ids_node o).
Proof.
  induction o as [id' nm ats cs IH|s|s|s] using obj_ind';
    cbn [ocollect_node all_ids_node]; [|tauto..].
  rewrite all_ids_app, in_app_iff. intros [H|H].
  - destruct (m nm ats); [|destruct H].
    unfold all_ids in H. cbn [flat_map] in H. rewrite app_nil_r in H.
    now apply oprune_ids in H.
  - right. induction IH as [|x l Hx _ IHl]; [assumption|].
    cbn [flat_map] in *. rewrite all_ids_app in H.
    rewrite in_app_iff in *. destruct H as [H|H]; [left; now apply Hx|].
    right. now apply IHl.
Qed.

Lemma ocollect_ids (id : path) (l : list obj) :
  In id (all_ids (ocollect m l)) -> In id (all_ids l).
Proof.
  unfold ocollect. induction l as [|x l IH]; [tauto|].
  cbn [flat_map]. unfold all_ids at 2. cbn [flat_map].
  rewrite all_ids_app, !in_app_iff.
  intros [H|H]; [left; now apply ocollect_node_ids|right; now apply IH].
Qed.

Lemma loop_forest_of_trees (l : list obj) :
  Forall (loop_tree m) l -> loop_forest m l.
Proof.
  induction 1 as [|t l Ht _ IH]; intros k ND D.
  - cbn. now rewrite fill_push_nil.
  - unfold oids, ocollect, oprune_list, all_ids in *. cbn [flat_map] in *.
    fold (all_ids l) in *. fold (oids m l). fold (ocollect m l).
    fold (oprune_list m l).
    pose proof (NoDup_app_remove_l _ _ ND) as NDl.
    pose proof (NoDup_app_remove_r _ _ ND) as NDt.
    pose proof (NoDup_app_disjoint _ _ ND) as Dis.
    rewrite fold_left_app.
    change (t :: l) with ([] ++ [t] ++ l)%list.
    rewrite <- (fill_focus [] l k [t]).
    rewrite Ht; [|assumption|].
    2:{ intros id Hid Hc. apply ctx_ids_focus in Hc as [Hc|[[]|Hc]].
        - apply (D id); [apply in_or_app; now left|assumption].
        - now apply (Dis id). }
    rewrite push_focus, fill_focus. cbn [app].
    replace (oprune_here m t ++ l)%list
      with (oprune_here m t ++ l ++ [])%list by now rewrite app_nil_r.
    rewrite <- (fill_focus (oprune_here m t) [] _ l).
    rewrite IH; [|assumption|].
    2:{ intros id Hid Hc. apply ctx_ids_focus in Hc as [Hc|[Hc|[]]].
        - apply ctx_ids_push in Hc as [Hc|Hc].
          + apply (D id); [apply in_or_app; now right|assumption].
          + apply ocollect_node_ids in Hc. now apply (Dis id Hc).
        - assert (Hc' : In id (all_ids_node t)).
          { unfold oprune_here in Hc. destruct (omatches m t); [destruct Hc|].
            unfold all_ids in Hc. cbn [flat_map] in Hc.
            rewrite app_nil_r in Hc. now apply oprune_ids in Hc. }
          now apply (Dis id Hc'). }
    rewrite push_focus, fill_focus, push_push. now rewrite app_nil_r.
Qed.

Lemma loop_tree_all (o : obj) : loop_tree m o.
Proof.
  induction o as [id nm ats cs IH|s|s|s] using obj_ind'; intros k ND D.
  - apply loop_forest_of_trees in IH.
    cbn [all_ids_node] in ND, D. apply NoDup_cons_iff in ND as [Hid NDcs].
    fold (all_ids cs) in *.
    cbn [oids_node ocollect_node]. unfold oprune_here. cbn [omatches].
    fold (oids m cs). fold (ocollect m cs).
    destruct (m nm ats) eqn:M; cbn [app].
    + cbn [fold_left].
      rewrite (move_fill id k [OTag id nm ats cs] (OTag id nm ats cs)).
      2:{ apply D. now left. }
      2:{ rewrite lookup_single. cbn. now rewrite path_eqb_refl. }
      replace (without id [OTag id nm ats cs]) with (@nil obj)
        by (unfold without; cbn; now rewrite path_eqb_refl).
      rewrite fill_push.
      destruct (fill k []) as [B C] eqn:E. cbn [fst snd].
      specialize (IH (Inside (Moved B [] C) id nm ats [] [])).
      cbn [fill app] in IH. rewrite app_nil_r in IH.
      rewrite IH; [|assumption|].
      2:{ intros id' Hid' Hc. cbn [ctx_ids In] in Hc.
          cbn [all_ids flat_map app] in Hc. rewrite app_nil_r in Hc.
          destruct Hc as [<-|Hc]; [contradiction|].
          assert (Hk : In id' (ctx_ids k) \/ In id' (all_ids [])).
          { apply all_ids_fill. now rewrite E. }
          destruct Hk as [Hk|[]]. apply (D id'); [now right|assumption]. }
      cbn [push fill app]. rewrite fill_push, E. cbn [fst snd oprune].
      rewrite ?app_nil_r. reflexivity.
    + specialize (IH (Inside k id nm ats [] [])).
      cbn [fill app] in IH. rewrite app_nil_r in IH.
      rewrite IH; [|assumption|].
      2:{ intros id' Hid' Hc. cbn [ctx_ids In] in Hc.
          cbn [all_ids flat_map app] in Hc. rewrite !app_nil_r in Hc.
          destruct Hc as [<-|Hc]; [contradiction|].
          apply (D id'); [now right|assumption]. }
      cbn [push fill app oprune]. now rewrite app_nil_r.
  - cbn. now rewrite fill_push_nil.
  - cbn. now rewrite fill_push_nil.
  - cbn. now rewrite fill_push_nil.
Qed.

Lemma loop_forest_all (l : list obj) : loop_forest m l.
Proof.
  apply loop_forest_of_trees, Forall_forall. intros o _. apply loop_tree_all.
Qed.

End Loop.

(** *** From objects back to elements *)

Lemma erase_label_node (n : node) : forall p, erase (label_node p n) = n.
Proof.
  induction n as [nm ats cs IH|s|s|s] using Count.node_ind'; intros p;
    cbn [label_node erase]; try reflexivity.
  f_equal. generalize 0.
  induction IH as [|x l Hx _ IHl]; intros k; cbn [mapi map]; [reflexivity|].
  now rewrite Hx, IHl.
Qed.

Lemma erase_label (l : list node) : map erase (label l) = l.
Proof.
  unfold label. generalize 0. induction l as [|x l IH]; intros k;
    cbn [mapi map]; [reflexivity|].
  now rewrite erase_label_node, IH.
Qed.

Section Erase.
Variable m : string -> list attr -> bool.

Lemma omatches_erase (o : obj) : omatches m o = matches m (erase o).
Proof. now destruct o. Qed.

Lemma erase_oprune (o : obj) : erase (oprune m o) = prune m (erase o).
Proof.
  induction o as [id nm ats cs IH|s|s|s] using obj_ind'; cbn [oprune erase prune].
  - f_equal. induction IH as [|x l Hx _ IHl]; [reflexivity|].
    cbn [flat_map map]. rewrite map_app, IHl, <- omatches_erase.
    destruct (omatches m x); cbn [map]; [reflexivity|now rewrite Hx].
  - reflexivity.
  - reflexivity.
  - reflexivity.
Qed.

Lemma erase_ocollect_node (o : obj) :
  map erase (ocollect_node m o) = collect_node m (erase o).
Proof.
  induction o as [id nm ats cs IH|s|s|s] using obj_ind';
    cbn [ocollect_node erase collect_node].
  - rewrite map_app. f_equal.
    + destruct (m nm ats); [|reflexivity]. cbn [map].
      now rewrite (erase_oprune (OTag id nm ats cs)).
    + induction IH as [|x l Hx _ IHl]; [reflexivity|].
      cbn [flat_map map]. now rewrite map_app, Hx, IHl.
  - reflexivity.
  - reflexivity.
  - reflexivity.
Qed.

Lemma erase_ocollect (l : list obj) :
  map erase (ocollect m l) = collect m (map erase l).
Proof.
  unfold ocollect, collect. induction l as [|x l IH]; [reflexivity|].
  cbn [flat_map map]. now rewrite map_app, erase_ocollect_node, IH.
Qed.

(** The references that [find_all] hands out are the origins of the
    accepted tags. *)
Lemma find_all_node_oids (n : node) :
  forall p, map (app p) (find_all_node m n) = oids_node m (label_node p n).
Proof.
  induction n as [nm ats cs IH|s|s|s] using Count.node_ind'; intros p;
    cbn [find_all_node label_node oids_node]; try reflexivity.
  assert (W : forall k, map (app p) (walk (find_all_node m) k cs)
                        = flat_map (oids_node m)
                            (mapi (fun i => label_node (p ++ [i])%list) k cs)).
  { induction IH as [|x l Hx _ IHl]; intros k;
      cbn [walk mapi flat_map map]; [reflexivity|].
    rewrite map_app, map_map, IHl, <- Hx. apply (f_equal (fun z => z ++ _)%list).
    apply map_ext. intros q. now rewrite <- app_assoc. }
  rewrite map_app, W. f_equal.
  destruct (m nm ats); [|reflexivity]. cbn. now rewrite app_nil_r.
Qed.

Lemma find_all_oids (l : list node) : find_all m l = oids m (label l).
Proof.
  unfold find_all, oids, label. generalize 0.
  induction l as [|x l IH]; intros k; cbn [walk mapi flat_map];
    [reflexivity|].
  rewrite IH, <- (find_all_node_oids x [k]). reflexivity.
Qed.
End Erase.

(** *** The origins are all different *)

Lemma label_node_prefix (n : node) :
  forall p id, In id (all_ids_node (label_node p n)) -> exists q, id = (p ++ q)%list.
Proof.
  induction n as [nm ats cs IH|s|s|s] using Count.node_ind'; intros p id;
    cbn [label_node all_ids_node]; try (intros []; fail).
  intros [<-|H]; [exists []; now rewrite app_nil_r|].
  revert H. generalize 0.
  induction IH as [|x l Hx _ IHl]; intros k; cbn [mapi flat_map];
    [intros []|].
  rewrite in_app_iff. intros [H|H]; [|now apply (IHl (S k))].
  destruct (Hx _ _ H) as (q & ->). exists (k :: q). now rewrite <- app_assoc.
Qed.

Lemma label_children_prefix (cs : list node) (p : path) :
  forall k id,
    In id (flat_map all_ids_node
             (mapi (fun i => label_node (p ++ [i])%list) k cs)) ->
    exists j q, k <= j /\ id = (p ++ j :: q)%list.
Proof.
  induction cs as [|x cs IH]; intros k id; cbn [mapi flat_map]; [intros []|].
  rewrite in_app_iff. intros [H|H].
  - destruct (label_node_prefix _ _ _ H) as (q & ->).
    exists k, q. split; [lia|]. now rewrite <- app_assoc.
  - destruct (IH _ _ H) as (j & q & L & ->). exists j, q. split; [lia|reflexivity].
Qed.

Lemma label_node_nodup (n : node) : forall p, NoDup (all_ids_node (label_node p n)).
Proof.
  induction n as [nm ats cs IH|s|s|s] using Count.node_ind'; intros p;
    cbn [label_node all_ids_node]; try constructor.
  - intros H. destruct (label_children_prefix _ _ _ _ H) as (j & q & _ & E).
    apply (f_equal (@List.length nat)) in E.
    rewrite length_app in E. cbn in E. lia.
  - generalize 0. induction IH as [|x l Hx _ IHl]; intros k; cbn [mapi flat_map];
      [constructor|].
    apply NoDup_app; [apply Hx|apply IHl|].
    intros id H1 H2.
    destruct (label_node_prefix _ _ _ H1) as (q & ->).
    destruct (label_children_prefix _ _ _ _ H2) as (j & q' & L & E).
    rewrite <- app_assoc in E. apply app_inv_head in E.
    cbn in E. injection E as -> _. lia.
Qed.

Lemma label_nodup (l : list node) : NoDup (all_ids (label l)).
Proof.
  unfold all_ids, label. generalize 0.
  induction l as [|x l IH]; intros k; cbn [mapi flat_map]; [constructor|].
  apply NoDup_app; [apply label_node_nodup|apply IH|].
  intros id H1 H2.
  destruct (label_node_prefix _ _ _ H1) as (q & ->).
  destruct (label_children_prefix l [] _ _ H2) as (j & q' & L & E).
  cbn in E. injection E as -> _. lia.
Qed.

End RecoveryFacts.

(** What the loop appends to the body: the accepted tags of the candidate
    in document order, each without the accepted tags below it. *)
Lemma recovered_collect (l : list Soup.node) :
  recovered l = Recovery.collect (Soup.named content_tags) l.
Proof.
  unfold recovered. rewrite RecoveryFacts.find_all_oids.
  pose proof (RecoveryFacts.loop_forest_all (Soup.named content_tags) (Obj.label l)
                (Recovery.Rest [] [] []) (RecoveryFacts.label_nodup l)) as H.
  cbn [Recovery.fill app] in H. rewrite app_nil_r in H.
  rewrite H by (intros id _ []).
  rewrite RecoveryFacts.fill_push. cbn [Recovery.fill fst app].
  now rewrite RecoveryFacts.erase_ocollect, RecoveryFacts.erase_label.
Qed.

Section Recovering.
Import Soup.
Variable parse : string -> Soup.soup.

(** C7, amended: for a candidate with neither an html nor a body tag, the
    output is a html tag around a body tag that holds the fragment's
    elements and then the candidate's div, section, p, h1, h2, h3, script and
    style tags, from any depth, in document order, each without the tags of
    these names below it, which follow it as its siblings. *)
Theorem bare_candidate (form_html new_html : string) :
  parse skeleton_html = skeleton ->
  find (named ["body"]) (parse new_html) = None ->
  find (named ["html"]) (parse new_html) = None ->
  add_form_back parse form_html new_html
  = Returns (soup_to_string
               [Tag "html" []
                  [Tag "body" []
                     (form_element_of (parse form_html)
                      ++ Recovery.collect (named content_tags) (parse new_html))%list]]).
Proof.
  intros Hs Hb Hh. rewrite (add_form_back_bare parse _ _ Hs Hb Hh).
  now rewrite recovered_collect.
Qed.

End Recovering.

(** ** More on the fragment extractor *)

Module CutFacts.
Import Soup SoupFacts OutputFacts StrFacts.

Lemma nth_error_split_remove {A : Type} (j : nat) :
  forall (l : list A) (x : A), nth_error l j = Some x ->
  exists a c, l = (a ++ x :: c)%list /\ remove_nth j l = (a ++ c)%list.
Proof.
  induction j as [|j IH]; intros [|y l] x; cbn [nth_error]; try discriminate.
  - intros H. injection H as ->. exists [], l. auto.
  - intros H. destruct (IH _ _ H) as (a & c & -> & R).
    exists (y :: a), c. split; [reflexivity|]. cbn. now rewrite R.
Qed.

Lemma parent_cons (j k : nat) (q : path) : parent (j :: k :: q) = j :: parent (k :: q).
Proof. reflexivity. Qed.

Lemma last_cons (j k : nat) (q : path) : last (j :: k :: q) 0 = last (k :: q) 0.
Proof. reflexivity. Qed.

Lemma extract_cons (j k : nat) (q : path) (l : list node) :
  extract (j :: k :: q) l
  = update_nth j
      (fun n => match n with
                | Tag nm ats cs => Tag nm ats (extract (k :: q) cs)
                | other => other
                end) l.
Proof.
  unfold extract. rewrite parent_cons, last_cons. reflexivity.
Qed.

Lemma extract_nonempty (k : nat) (q : path) (cs : list node) :
  q <> [] -> cs <> [] -> extract (k :: q) cs <> [].
Proof.
  intros Hq Hcs. unfold extract. apply update_contents_nonempty; [|assumption].
  destruct q; [congruence|discriminate].
Qed.

(** The markup of a tree is the markup of the tree without one of its
    tags, with the markup of that tag put in at one place. *)
Lemma extract_markup (p : path) :
  forall (raw : bool) (l : list node) (nm : string) (ats : list attr)
         (cs : list node),
  get l p = Some (Tag nm ats cs) ->
  (forall pn pats pcs, get l (parent p) = Some (Tag pn pats pcs) ->
                       can_be_empty_element pn = false) ->
  exists s1 s2, decode_list raw l = s1 ++ to_string (Tag nm ats cs) ++ s2
                /\ decode_list raw (extract p l) = s1 ++ s2.
Proof.
  induction p as [|j q IH]; intros raw l nm ats cs G V; [discriminate|].
  destruct q as [|k q].
  - cbn in G. destruct (nth_error_split_remove _ _ _ G) as (a & c & -> & R).
    unfold extract. cbn [parent removelast last update_contents]. rewrite R.
    exists (decode_list raw a), (decode_list raw c).
    rewrite !decode_list_app, decode_list_cons. auto.
  - rewrite get_cons in G by discriminate.
    destruct (nth_error l j) as [[nm' ats' cs'| | |]|] eqn:E; try discriminate.
    rewrite extract_cons.
    destruct (nth_error_split_update _ _ _ E) as (a & c & -> & U). rewrite U.
    assert (Hcs : cs' <> []).
    { intros ->. destruct q, k; cbn in G; discriminate. }
    assert (V' : forall pn pats pcs,
               get cs' (parent (k :: q)) = Some (Tag pn pats pcs) ->
               can_be_empty_element pn = false).
    { intros pn pats pcs H. apply (V pn pats pcs). rewrite parent_cons.
      destruct q as [|k' q]; [discriminate|].
      rewrite get_cons, E; [exact H|]. destruct q; discriminate. }
    destruct (IH (cdata_containing nm') _ _ _ _ G V') as (s1 & s2 & E1 & E2).
    exists (decode_list raw a ++ ("<" ++ nm' ++ decode_attrs ats' ++ ">") ++ s1),
      (s2 ++ ("</" ++ nm' ++ ">") ++ decode_list raw c).
    rewrite !decode_list_app, !decode_list_cons.
    rewrite (decode_tag raw nm' ats' cs') by auto.
    assert (D : can_be_empty_element nm' = false \/ extract (k :: q) cs' <> []).
    { destruct q as [|k' q].
      - left. apply (V nm' ats' cs'). cbn. exact E.
      - right. apply extract_nonempty; [discriminate|assumption]. }
    rewrite (decode_tag raw nm' ats' _ D).
    rewrite E1, E2. rewrite !append_assoc. auto.
Qed.

End CutFacts.

Section ExtractorMore.
Import Soup SoupFacts ExtractorFacts.
Variable parse : string -> Soup.soup.

(** X3: when the page has a form whose parent is no empty-element tag, the
    fragment and the page without it, as returned, make up the markup of the
    parsed page: the fragment stands at one place of it and the rest is what
    is around. *)
Theorem extract_form_partition (o n : option string) (html : string) (pf : path) :
  find (named ["form"]) (parse html) = Some pf ->
  (forall pn pats pcs, get (parse html) (parent pf) = Some (Tag pn pats pcs) ->
                       can_be_empty_element pn = false) ->
  exists form_html s1 s2,
    extract_form parse o n html = Returns (form_html, s1 ++ s2)
    /\ soup_to_string (parse html) = s1 ++ form_html ++ s2.
Proof.
  intros Hf V. destruct (find_get _ _ _ Hf) as (nm & ats & cs & G & _).
  destruct (CutFacts.extract_markup pf false _ _ _ _ G V) as (s1 & s2 & E1 & E2).
  exists (to_string (Tag nm ats cs)), s1, s2. split; [|exact E1].
  unfold extract_form, locate_form. rewrite Hf. unfold str_at. rewrite G.
  rewrite (OutputFacts.soup_to_string_decode (extract pf (parse html))), E2.
  destruct pf; [discriminate|reflexivity].
Qed.

(** X4: in a page with no form whose first text input is a child of the
    root and that has a button somewhere, the fragment is the whole page and
    the page comes back whole as well: nothing is taken out. *)
Theorem top_level_input_takes_page (o n : option string) (html : string)
        (q : path) (qs : list path) (b : path) :
  find (named ["form"]) (parse html) = None ->
  find_all text_inputs (parse html) = q :: qs -> parent q = [] ->
  In b (find_all (named ["button"]) (parse html)) ->
  extract_form parse o n html
  = Returns (soup_to_string (parse html), soup_to_string (parse html)).
Proof.
  intros Hf Hq Hp Hb. unfold extract_form, locate_form. rewrite Hf, Hq.
  destruct (find_some _ _ _ Hb) as (p' & Hp').
  destruct (find_all (named ["button"]) (parse html)); [destruct Hb|].
  cbn [first_parent_with_button]. rewrite Hp. cbn [descend]. rewrite Hp'.
  reflexivity.
Qed.

End ExtractorMore.

(** ** More on the fragment re-inserter *)

Module AppendFacts.
Import Soup SoupFacts OutputFacts StrFacts.

(** What is appended to the contents of a tag comes out right before its
    end tag; the rest of the markup stays as it was. *)
Lemma append_markup (new : list node) (p : path) :
  forall (raw : bool) (l : list node) (nm : string) (ats : list attr)
         (cs : list node),
  get l p = Some (Tag nm ats cs) -> can_be_empty_element nm = false ->
  exists s1 s2, decode_list raw l = s1 ++ s2
                /\ decode_list raw (append new p l)
                   = s1 ++ decode_list (cdata_containing nm) new ++ s2.
Proof.
  unfold append.
  induction p as [|j q IH]; intros raw l nm ats cs G V; [discriminate|].
  cbn [update_contents]. destruct q as [|k q].
  - cbn in G. destruct (nth_error_split_update _ _ _ G) as (a & c & -> & U).
    rewrite U. cbn [update_contents].
    exists (decode_list raw a ++ ("<" ++ nm ++ decode_attrs ats ++ ">")
            ++ decode_list (cdata_containing nm) cs),
      (("</" ++ nm ++ ">") ++ decode_list raw c).
    rewrite !decode_list_app, !decode_list_cons, !decode_tag by auto.
    rewrite decode_list_app. rewrite !append_assoc. auto.
  - rewrite get_cons in G by discriminate.
    destruct (nth_error l j) as [[nm' ats' cs'| | |]|] eqn:E; try discriminate.
    destruct (nth_error_split_update _ _ _ E) as (a & c & -> & U).
    rewrite U.
    assert (Hcs : cs' <> []).
    { intros ->. destruct q, k; cbn in G; discriminate. }
    destruct (IH (cdata_containing nm') _ _ _ _ G V) as (s1 & s2 & E1 & E2).
    exists (decode_list raw a ++ ("<" ++ nm' ++ decode_attrs ats' ++ ">") ++ s1),
      (s2 ++ ("</" ++ nm' ++ ">") ++ decode_list raw c).
    rewrite !decode_list_app, !decode_list_cons.
    rewrite (decode_tag raw nm' ats' cs') by auto.
    rewrite (decode_tag raw nm' ats' (update_contents _ (k :: q) cs'))
      by (right; apply update_contents_nonempty; [discriminate|assumption]).
    rewrite E1, E2. rewrite !append_assoc. auto.
Qed.

End AppendFacts.

Section ReinserterMore.
Import Soup SoupFacts.
Variable parse : string -> Soup.soup.

(** X5: when the candidate has an html tag and no body, the output is the
    candidate with a new body, holding the fragment's elements and nothing
    else, appended as the last child of its first html tag: taking that last
    child off gives back the candidate, and the markup of the output is the
    markup of the candidate with the markup of the new body put in at one
    place. *)
Theorem reinsert_html_frame (form_html new_html : string) (html_tag : path) :
  find (named ["body"]) (parse new_html) = None ->
  find (named ["html"]) (parse new_html) = Some html_tag ->
  exists ats cs s1 s2,
    let body := Tag "body" [] (form_element_of (parse form_html)) in
    let out := append [body] html_tag (parse new_html) in
    add_form_back parse form_html new_html = Returns (soup_to_string out)
    /\ get (parse new_html) html_tag = Some (Tag "html" ats cs)
    /\ get out html_tag = Some (Tag "html" ats (cs ++ [body])%list)
    /\ update_contents (@removelast node) html_tag out = parse new_html
    /\ soup_to_string (parse new_html) = s1 ++ s2
    /\ soup_to_string out = s1 ++ to_string body ++ s2.
Proof.
  intros Hb Hh. destruct (find_get _ _ _ Hh) as (nm & ats & cs & G & M).
  apply named_one in M. subst nm.
  destruct (AppendFacts.append_markup
              [Tag "body" [] (form_element_of (parse form_html))] html_tag false
              _ _ _ _ G eq_refl) as (s1 & s2 & E1 & E2).
  exists ats, cs, s1, s2. cbn zeta. repeat split.
  - unfold add_form_back. now rewrite Hb, Hh.
  - assumption.
  - unfold append.
    exact (get_update_contents
             (fun cs => cs ++ [Tag "body" [] (form_element_of (parse form_html))])%list
             html_tag _ _ _ _ G).
  - unfold append. rewrite update_contents_compose.
    apply update_contents_id. intros l. apply removelast_last.
  - exact E1.
  - rewrite OutputFacts.soup_to_string_decode, E2.
    unfold decode_list. cbn [map String.concat]. reflexivity.
Qed.

(** X6: when the parser reads the skeleton as an html tag around an empty
    body, the re-inserter returns a document for every fragment and every
    candidate: it never raises. *)
Theorem add_form_back_returns (form_html new_html : string) :
  parse skeleton_html = skeleton ->
  exists out, add_form_back parse form_html new_html = Returns out.
Proof.
  intros Hs. unfold add_form_back.
  destruct (find (named ["body"]) (parse new_html)); [eauto|].
  destruct (find (named ["html"]) (parse new_html)); [eauto|].
  rewrite Hs. cbn. eauto.
Qed.

End ReinserterMore.

(** ** More on the recovery loop *)

Module CollectFacts.
Import Soup Recovery.

Section Collected.
Variable m : string -> list attr -> bool.

Lemma length_walk (f : node -> list path) (l : list node) :
  forall k, List.length (walk f k l) = list_sum (map (fun c => List.length (f c)) l).
Proof.
  induction l as [|x l IH]; intros k; cbn [walk map list_sum fold_right];
    [reflexivity|].
  rewrite length_app, length_map, IH. reflexivity.
Qed.

Lemma length_flat_map {A B : Type} (f : A -> list B) (l : list A) :
  List.length (flat_map f l) = list_sum (map (fun c => List.length (f c)) l).
Proof.
  induction l as [|x l IH]; cbn [flat_map map list_sum fold_right];
    [reflexivity|].
  rewrite length_app, IH. reflexivity.
Qed.

Lemma length_collect_node (n : node) :
  List.length (collect_node m n) = List.length (find_all_node m n).
Proof.
  induction n as [nm ats cs IH|s|s|s] using Count.node_ind';
    cbn [collect_node find_all_node]; try reflexivity.
  rewrite !length_app, length_walk, length_flat_map. f_equal.
  - now destruct (m nm ats).
  - induction IH as [|x l Hx _ IHl]; [reflexivity|].
    cbn [map list_sum fold_right]. unfold list_sum in IHl. now rewrite Hx, IHl.
Qed.

Lemma length_collect (l : list node) :
  List.length (collect m l) = List.length (find_all m l).
Proof.
  unfold collect, find_all. rewrite length_walk, length_flat_map.
  induction l as [|x l IH]; [reflexivity|].
  cbn [map list_sum fold_right]. unfold list_sum in IH.
  now rewrite length_collect_node, IH.
Qed.

Lemma matches_prune (n : node) : matches m (prune m n) = matches m n.
Proof. now destruct n. Qed.

Lemma walk_nil (f : node -> list path) (l : list node) :
  Forall (fun c => f c = []) l -> forall k, walk f k l = [].
Proof.
  induction 1 as [|x l Hx _ IH]; intros k; cbn [walk]; [reflexivity|].
  now rewrite Hx, IH.
Qed.

(** Nothing that [m] accepts is left below a pruned element. *)
Lemma pruned_contents (cs : list node) :
  Forall (fun c => matches m c = false -> find_all_node m (prune m c) = []) cs ->
  Forall (fun c => find_all_node m c = [])
    (flat_map (fun c => if matches m c then [] else [prune m c]) cs).
Proof.
  induction 1 as [|x l Hx _ IH]; cbn [flat_map]; [constructor|].
  destruct (matches m x) eqn:E; cbn [app]; [assumption|].
  constructor; [now apply Hx|assumption].
Qed.

Lemma prune_below (n : node) :
  find_all_node m (prune m n) = if matches m n then [[]] else [].
Proof.
  induction n as [nm ats cs IH|s|s|s] using Count.node_ind';
    cbn [prune find_all_node matches]; try reflexivity.
  rewrite walk_nil.
  - destruct (m nm ats); reflexivity.
  - apply pruned_contents. eapply Forall_impl; [|exact IH].
    intros c Hc E. cbn beta in Hc. now rewrite Hc, E.
Qed.

Lemma collect_node_flat (n : node) :
  Forall (fun t => matches m t = true /\ find_all_node m t = [[]])
    (collect_node m n).
Proof.
  induction n as [nm ats cs IH|s|s|s] using Count.node_ind';
    cbn [collect_node]; try constructor.
  apply Forall_app. split.
  - destruct (m nm ats) eqn:E; [|constructor].
    constructor; [|constructor].
    rewrite prune_below, matches_prune. cbn [matches]. now rewrite E.
  - induction IH as [|x l Hx _ IHl]; cbn [flat_map]; [constructor|].
    apply Forall_app. auto.
Qed.

Lemma collect_flat (l : list node) :
  Forall (fun t => matches m t = true /\ find_all_node m t = [[]]) (collect m l).
Proof.
  unfold collect. induction l as [|x l IH]; cbn [flat_map]; [constructor|].
  apply Forall_app. split; [apply collect_node_flat|assumption].
Qed.

End Collected.

End CollectFacts.

(** X7: the recovery loop appends as many elements as [find_all] found in
    the candidate, and each of them is a tag of one of the eight names. *)
Theorem recovered_all_found (l : list Soup.node) :
  List.length (recovered l)
  = List.length (Soup.find_all (Soup.named content_tags) l)
  /\ Forall (fun t => Recovery.matches (Soup.named content_tags) t = true)
       (recovered l).
Proof.
  rewrite recovered_collect. split; [apply CollectFacts.length_collect|].
  eapply Forall_impl; [|apply CollectFacts.collect_flat].
  intros t [H _]. exact H.
Qed.

(** X8: what the recovery loop appends is flat: no appended tag has a tag
    of one of the eight names below it (such a tag has been moved out and
    stands later in the body). *)
Theorem recovered_flat (l : list Soup.node) :
  Forall (fun t => Soup.find_all_node (Soup.named content_tags) t = [[]])
    (recovered l).
Proof.
  rewrite recovered_collect.
  eapply Forall_impl; [|apply CollectFacts.collect_flat].
  intros t [_ H]. exact H.
Qed.

(** ** The prompt *)

Module PromptFacts.
Import Str StrFacts Fence ReplaceFacts.

(** A fence-free run of characters before a text adds no occurrence. *)
Lemma occurs_clear (p h s : string) :
  clear_of p h = true -> occurs p (h ++ s) = occurs p s.
Proof.
  induction h as [|c h IH]; [reflexivity|].
  cbn [clear_of]. intros H. apply andb_true_iff in H as [M C].
  pose proof (mismatch_drop p (String c h) s M) as D.
  cbn [append] in *. cbn [occurs]. unfold startswith. rewrite D.
  cbn [orb]. auto.
Qed.

(** A character that [p] does not have stops every occurrence that begins
    before it. *)
Lemma occurs_stop (c : ascii) (p x s : string) :
  Soup.has_char c p = false -> occurs p x = false ->
  occurs p (x ++ String c s) = occurs p (String c s).
Proof.
  intros Hc. induction x as [|b x IH]; [reflexivity|].
  cbn [occurs]. intros H. apply orb_false_iff in H as [N O].
  pose proof (stopped_by c p (String b x) s Hc N) as D.
  cbn [append] in *. cbn [occurs]. unfold startswith at 1. rewrite D.
  cbn [orb]. auto.
Qed.

Lemma rstrip_all_space (ws : string) : all_space ws = true -> rstrip ws = EmptyString.
Proof.
  induction ws as [|c ws IH]; [reflexivity|].
  cbn [all_space rstrip]. intros H. apply andb_true_iff in H as [H1 H2].
  now rewrite (IH H2), H1.
Qed.

Lemma rstrip_app_space (s ws : string) :
  all_space ws = true -> rstrip (s ++ ws) = rstrip s.
Proof.
  intros H. induction s as [|c s IH]; [now apply rstrip_all_space|].
  cbn [append rstrip]. now rewrite IH.
Qed.

Lemma lstrip_app_space (s ws : string) :
  all_space ws = true ->
  exists ws', all_space ws' = true /\ lstrip (s ++ ws) = lstrip s ++ ws'.
Proof.
  intros H. induction s as [|c s IH].
  - exists EmptyString. split; [reflexivity|].
    cbn [append lstrip]. rewrite <- (append_nil_r ws) at 1.
    now rewrite lstrip_all_space.
  - cbn [append lstrip]. destruct (isspace c); [exact IH|].
    exists ws. auto.
Qed.

(** White space around a text does not change what [strip] gives. *)
Lemma strip_padded (a s b : string) :
  all_space a = true -> all_space b = true -> strip (a ++ s ++ b) = strip s.
Proof.
  intros Ha Hb. unfold strip. rewrite lstrip_all_space by assumption.
  destruct (lstrip_app_space s b Hb) as (b' & Hb' & ->).
  now apply rstrip_app_space.
Qed.

(** The prompt: what stands before the instructions, between them and the
    block of the page, and after the block. *)
Lemma create_prompt_parts (html : string) (instr : value) :
  exists head rules foot,
    clear_of fence head = true
    /\ occurs fence (nl ++ rules ++ "``") = false
    /\ create_prompt html instr
       = (head ++ fmt instr ++ nl ++ rules)
           ++ fence ++ "html" ++ (nl ++ html ++ nl) ++ fence ++ foot.
Proof.
  eexists (nl ++ "Please modify the following HTML/CSS/JS webpage according to these instructions:" ++ nl ++ nl ++ "INSTRUCTIONS: ").
  eexists (nl ++ "IMPORTANT RULES:" ++ nl ++
  "1. Return the COMPLETE updated HTML file, not just a snippet or the changes." ++ nl ++
  "2. Respond with only the HTML code, no explanations or markdown formatting." ++ nl ++
  "3. Feel free to enhance the CSS and add JavaScript as needed." ++ nl ++
  "4. Maintain the overall structure with html, head, and body tags." ++ nl ++ nl ++
  "CURRENT HTML:" ++ nl).
  eexists (nl ++ nl ++ "Provide the complete updated HTML file:" ++ nl).
  split; [vm_compute; reflexivity|]. split; [vm_compute; reflexivity|].
  unfold create_prompt. rewrite !append_assoc. reflexivity.
Qed.

End PromptFacts.

(** X9: the block of the prompt is read back by the extractor: when
    neither the instructions nor the page hold a fence, the extractor, given
    the prompt itself, returns the page that the prompt was made of,
    stripped. *)
Theorem prompt_block_read_back (parse : string -> Soup.soup) (html : string)
        (instr : value) :
  Str.occurs Fence.fence (fmt instr) = false ->
  Str.occurs Fence.fence html = false ->
  extract_html_from_llm_response parse (create_prompt html instr)
  = Returns (Str.strip html).
Proof.
  intros Hi Hh.
  destruct (PromptFacts.create_prompt_parts html instr)
    as (head & rules & foot & Hhead & Hrules & ->).
  assert (Hpre : Str.occurs Fence.fence ((head ++ fmt instr ++ nl ++ rules) ++ "``")
                 = false).
  { rewrite !StrFacts.append_assoc, PromptFacts.occurs_clear by assumption.
    unfold nl at 1. cbn [append].
    rewrite (PromptFacts.occurs_stop (ascii_of_nat 10)); auto. }
  assert (Hbody : Str.occurs Fence.fence ((nl ++ html ++ nl) ++ "``") = false).
  { rewrite !StrFacts.append_assoc, PromptFacts.occurs_clear by reflexivity.
    unfold nl. cbn [append].
    rewrite (PromptFacts.occurs_stop (ascii_of_nat 10)); auto. }
  rewrite (extract_html_fenced parse _ (Str.strip (nl ++ html ++ nl)) foot).
  - rewrite StrFacts.strip_idem. f_equal.
    now apply PromptFacts.strip_padded.
  - rewrite ReFacts.search_html_skip by assumption.
    apply ReFacts.search_here. now apply ReFacts.match_here_html_block.
Qed.

(** ** The driver *)

Module RunFacts.

Lemma extractor_raises (parse : string -> Soup.soup) (text : string) (e : exn) :
  extract_html_from_llm_response parse text = Raises e -> e = HTMLExtractionError.
Proof.
  unfold extract_html_from_llm_response.
  destruct (Re.findall html_pattern text); [|discriminate].
  destruct (Soup.find_all _ _); [|discriminate]. congruence.
Qed.

Lemma extract_form_raises (parse : string -> Soup.soup) (o n : option string)
      (html : string) (e : exn) :
  extract_form parse o n html = Raises e -> e = TypeError.
Proof.
  unfold extract_form. destruct (locate_form _); [discriminate|].
  destruct o, n; congruence.
Qed.

Lemma add_form_back_raises (parse : string -> Soup.soup)
      (form_html new_html : string) (e : exn) :
  add_form_back parse form_html new_html = Raises e -> e = AttributeError.
Proof.
  unfold add_form_back.
  destruct (Soup.find _ (parse new_html)); [discriminate|].
  destruct (Soup.find _ (parse new_html)); [discriminate|].
  destruct (Soup.find _ (parse skeleton_html)); congruence.
Qed.

End RunFacts.

(** One step of a run: the next call or function whose result decides how
    the run goes on. *)
Ltac run_step :=
  match goal with
  | |- context [match lookup_key ?k ?d with _ => _ end] =>
      destruct (lookup_key k d) eqn:?
  | |- context [match extract_form ?p ?o ?n ?h with _ => _ end] =>
      destruct (extract_form p o n h) as [[? ?]|?] eqn:?
  | |- context [match extract_html_from_llm_response ?p ?x with _ => _ end] =>
      destruct (extract_html_from_llm_response p x) as [?|[]] eqn:?
  | |- context [match add_form_back ?p ?f ?h with _ => _ end] =>
      destruct (add_form_back p f h) eqn:?
  | |- context [match caught ?f with _ => _ end] =>
      destruct (caught f) eqn:?
  | |- context [match ?c ?x ?y with _ => _ end] =>
      is_var c; destruct (c x y) eqn:?
  | |- context [match ?c ?x with _ => _ end] =>
      is_var c; destruct (c x) eqn:?
  | |- context [match ?c with _ => _ end] =>
      is_var c; destruct c eqn:?
  end; cbv beta iota; cbn [succeeded app caught].

Ltac run_cases :=
  unfold main, attempt, extracted_or_raw, required, core, perform, ret, raise,
    bind;
  cbv beta iota; repeat run_step.

(** The calls before the last two. *)
Ltac front l :=
  match l with
  | [_; _] => constr:(@nil (call * bool))
  | ?a :: ?l' => let r := front l' in constr:(a :: r)
  end.

Section DriverFacts.
Variable parse : string -> Soup.soup.
Variable REPO_OWNER REPO_NAME ISSUE_NUMBER : option string.
Variable get_issue_details : result (list (string * value)).
Variable get_current_html : result (string * string).
Variable get_gemini_completion : string -> result string.
Variable commit_file : string -> string -> result string.
Variable add_comment_to_issue : string -> result unit.
Variable close_issue : string -> result unit.
Variable party link cross : string.

(** X10: a run that ends with exit code 0 has made the six calls, each
    once, in this order, and each has succeeded: the issue is read, the page
    is read, the completion is asked for the prompt made of the page without
    the fragment and the issue's body, the output of the re-inserter (given
    the fragment of the page read, and the extracted reply, or the raw reply
    when the extractor raised) is committed against the version read, the
    comment with the commit's address is posted, the issue is closed. *)
Theorem exit_zero_run (t : list (call * bool)) :
  main parse REPO_OWNER REPO_NAME ISSUE_NUMBER get_issue_details
    get_current_html get_gemini_completion commit_file add_comment_to_issue
    close_issue party link cross = (t, Done 0) ->
  exists issue instr html sha form_html rest reply new_html final commit_sha,
    get_issue_details = Done issue
    /\ lookup_key "body" issue = Some instr
    /\ get_current_html = Done (html, sha)
    /\ extract_form parse REPO_OWNER REPO_NAME html = Returns (form_html, rest)
    /\ get_gemini_completion (create_prompt rest instr) = Done reply
    /\ (extract_html_from_llm_response parse reply = Returns new_html
        \/ extract_html_from_llm_response parse reply = Raises HTMLExtractionError
           /\ new_html = reply)
    /\ add_form_back parse form_html new_html = Returns final
    /\ commit_file final sha = Done commit_sha
    /\ t = [(IssueRead, true); (FileRead, true);
            (Completion (create_prompt rest instr), true);
            (Commit final sha, true);
            (Comment
               (success_comment REPO_OWNER REPO_NAME party link
                  ("https://github.com/" ++ fmt_env REPO_OWNER ++ "/"
                     ++ fmt_env REPO_NAME ++ "/commit/" ++ commit_sha)), true);
            (Close (issue_endpoint REPO_OWNER REPO_NAME ISSUE_NUMBER), true)].
Proof.
  run_cases.
  all: intros H; try discriminate H.
  all: injection H as <-; do 10 eexists.
  all: repeat (split;
               [first [ eassumption | reflexivity | left; eassumption
                      | right; split; [eassumption|reflexivity] ]|]).
  all: reflexivity.
Qed.

(** X11: whatever a run commits, and however the run ends after that, is
    an output of the re-inserter, given the fragment that the extractor took
    from the page read, and it is committed against the version read with
    the page; the completion had succeeded. *)
Theorem commit_is_reinserted (t : list (call * bool)) (r : result nat)
        (content sha : string) (b : bool) :
  main parse REPO_OWNER REPO_NAME ISSUE_NUMBER get_issue_details
    get_current_html get_gemini_completion commit_file add_comment_to_issue
    close_issue party link cross = (t, r) ->
  In (Commit content sha, b) t ->
  exists instr html form_html rest reply new_html,
    get_current_html = Done (html, sha)
    /\ extract_form parse REPO_OWNER REPO_NAME html = Returns (form_html, rest)
    /\ get_gemini_completion (create_prompt rest instr) = Done reply
    /\ (new_html = reply \/
        extract_html_from_llm_response parse reply = Returns new_html)
    /\ add_form_back parse form_html new_html = Returns content.
Proof.
  run_cases.
  all: intros H; injection H as <- <-; cbn [In]; intros Hin.
  all: repeat (destruct Hin as [Hin|Hin]; try discriminate Hin).
  all: try contradiction.
  all: injection Hin as <- <- <-; do 6 eexists.
  all: repeat (split; [first [eassumption|reflexivity]|]).
  all: split; [|eassumption].
  all: first [left; reflexivity|right; eassumption].
Qed.

(** X12: a run that ends with exit code 1 has made calls that all
    succeeded, then one call that failed, then the call that posts the error
    comment, and no other: nothing is tried again and nothing is called
    after the failure but the comment. The exit code does not depend on
    whether the comment could be posted. *)
Theorem exit_one_run (t : list (call * bool)) :
  main parse REPO_OWNER REPO_NAME ISSUE_NUMBER get_issue_details
    get_current_html get_gemini_completion commit_file add_comment_to_issue
    close_issue party link cross = (t, Done 1) ->
  exists t' c message,
    t = (t' ++ [(c, false);
                (Comment (error_comment cross message),
                 succeeded (add_comment_to_issue (error_comment cross message)))])%list
    /\ Forall (fun x => snd x = true) t'.
Proof.
  run_cases.
  all: intros H; try discriminate H.
  all: try (match goal with
            | E : extract_form _ _ _ _ = Raises _ |- _ =>
                apply RunFacts.extract_form_raises in E; subst; discriminate
            | E : add_form_back _ _ _ = Raises _ |- _ =>
                apply RunFacts.add_form_back_raises in E; subst; discriminate
            end).
  all: match type of H with
       | (?L, _) = _ => let f := front L in injection H as <-; exists f
       end.
  all: do 2 eexists; split; [reflexivity|repeat constructor].
Qed.

End DriverFacts.

(** ** The program on concrete pages, read by the reference parser *)

Module Examples.
Import Soup Pages.

(** C1: a page whose body stands inside its form has a form and a body;
    once the form is out no body is left, and putting the form back builds
    a new body around it. *)
Lemma round_trip_counterexample :
  find (named ["form"]) (P "<html><form><body>x</body></form></html>") = Some [0; 0]
  /\ find (named ["body"]) (P "<html><form><body>x</body></form></html>")
     = Some [0; 0; 0]
  /\ extract_form P (Some "o") (Some "n") "<html><form><body>x</body></form></html>"
     = Returns ("<form><body>x</body></form>", "<html></html>")
  /\ find (named ["body"]) (P "<html></html>") = None
  /\ add_form_back P "<form><body>x</body></form>" "<html></html>"
     = Returns "<html><body><form><body>x</body></form></body></html>".
Proof. vm_compute. repeat split; reflexivity. Qed.

Lemma form_round_trip_witness :
  (find (named ["form"]) (P "<html><body>a<form></form>b</body></html>")
   = Some [0; 0; 1]
   /\ get (P "<html><body>a<form></form>b</body></html>") [0; 0; 1]
      = Some (Tag "form" [] [])
   /\ find (named ["body"])
        (P (soup_to_string
              (extract [0; 0; 1] (P "<html><body>a<form></form>b</body></html>"))))
      = Some [0; 0]
   /\ find any_tag (P (to_string (Tag "form" [] []))) = Some [0]
   /\ get (P (to_string (Tag "form" [] []))) [0] = Some (Tag "form" [] [])
   /\ to_string (Tag "form" [] []) = to_string (Tag "form" [] []))
  /\ extract_form P None None "<html><body>a<form></form>b</body></html>"
     = Returns ("<form></form>", "<html><body>ab</body></html>")
  /\ add_form_back P "<form></form>" "<html><body>ab</body></html>"
     = Returns "<html><body><form></form>ab</body></html>".
Proof.
  assert (H1 : find (named ["form"]) (P "<html><body>a<form></form>b</body></html>")
               = Some [0; 0; 1]) by (vm_compute; reflexivity).
  assert (H2 : get (P "<html><body>a<form></form>b</body></html>") [0; 0; 1]
               = Some (Tag "form" [] [])) by (vm_compute; reflexivity).
  assert (H3 : find (named ["body"])
                 (P (soup_to_string
                       (extract [0; 0; 1]
                          (P "<html><body>a<form></form>b</body></html>"))))
               = Some [0; 0]) by (vm_compute; reflexivity).
  assert (H4 : find any_tag (P (to_string (Tag "form" [] []))) = Some [0])
    by (vm_compute; reflexivity).
  assert (H5 : get (P (to_string (Tag "form" [] []))) [0] = Some (Tag "form" [] []))
    by (vm_compute; reflexivity).
  split; [split; [exact H1|split; [exact H2|split; [exact H3|split;
          [exact H4|split; [exact H5|reflexivity]]]]]|].
  destruct (form_round_trip P None None "<html><body>a<form></form>b</body></html>"
              [0; 0; 1] [0; 0] [0] (Tag "form" [] []) (Tag "form" [] [])
              H1 H2 H3 H4 H5 eq_refl)
    as (ats & cs & s1 & s2 & E1 & E2 & _).
  split.
  - rewrite E1. vm_compute. reflexivity.
  - assert (R : "<html><body>ab</body></html>"
                = soup_to_string
                    (extract [0; 0; 1]
                       (P "<html><body>a<form></form>b</body></html>")))
      by (vm_compute; reflexivity).
    rewrite R at 1. change "<form></form>" with (to_string (Tag "form" [] [])).
    rewrite E2. vm_compute. reflexivity.
Defined.

(** C2: a candidate with a body and no html tag gets no html tag, and a
    candidate that repeats the fragment ends with two copies of it. *)
Lemma reinsert_counterexample :
  add_form_back P "<form></form>" "<body><p>x</p></body>"
  = Returns "<body><form></form><p>x</p></body>"
  /\ find (named ["html"]) (P "<body><form></form><p>x</p></body>") = None
  /\ add_form_back P "<form></form>" "<html><body><form></form></body></html>"
     = Returns "<html><body><form></form><form></form></body></html>"
  /\ Count.count (Tag "form" [] [])
       (P "<html><body><form></form><form></form></body></html>") = 2.
Proof. vm_compute. repeat split; reflexivity. Qed.

Lemma reinsert_guarantee_witness :
  (P skeleton_html = skeleton /\ find any_tag (P "<form></form>") = Some [0])
  /\ exists f out pb ats cs,
       get (P "<form></form>") [0] = Some f
       /\ add_form_back P "<form></form>" "<html><head></head></html>"
          = Returns (soup_to_string out)
       /\ get out pb = Some (Tag "body" ats (f :: cs))
       /\ Count.count f out = 1.
Proof.
  assert (H1 : P skeleton_html = skeleton) by (vm_compute; reflexivity).
  assert (H2 : find any_tag (P "<form></form>") = Some [0])
    by (vm_compute; reflexivity).
  split; [split; assumption|].
  destruct (reinsert_guarantee P "<form></form>" "<html><head></head></html>" [0]
              H1 H2) as (f & out & pb & ats & cs & G & E & Gb & _ & C).
  exists f, out, pb, ats, cs. repeat split; try assumption.
  apply C.
  - right. vm_compute. discriminate.
  - vm_compute in G. injection G as <-. vm_compute. reflexivity.
Defined.

(** C3: with no owner configured, a page with no form makes the extractor
    raise. *)
Lemma extract_form_counterexample :
  locate_form (P "<p>x</p>") = None
  /\ extract_form P None (Some "n") "<p>x</p>" = Raises TypeError.
Proof. vm_compute. split; reflexivity. Qed.

Lemma fenced_block_witness :
  (Str.occurs Fence.fence ("Here you go: " ++ "``") = false
   /\ Str.occurs Fence.fence ((nl ++ "<p>x</p>" ++ nl) ++ "``") = false)
  /\ extract_html_from_llm_response P
       ("Here you go: " ++ "```" ++ "html" ++ (nl ++ "<p>x</p>" ++ nl) ++ "```"
        ++ " Enjoy.")
     = Returns "<p>x</p>".
Proof.
  split; [split; vm_compute; reflexivity|].
  change "```" with Fence.fence.
  rewrite (fenced_block_interior P "Here you go: " "html" (nl ++ "<p>x</p>" ++ nl)
             " Enjoy." eq_refl eq_refl (or_introl eq_refl)).
  vm_compute. reflexivity.
Defined.

(** C6: in this page the div holds the text input and the button and is
    their lowest common ancestor. The loop tries the parent of the input,
    the span, which has no button below it, and nothing else: no fragment is
    found, the default fragment is returned and the page comes back as it
    was. *)
Lemma common_ancestor_missed :
  P "<div><span><input type='text'></span><button>Go</button></div>"
  = [Tag "div" []
       [Tag "span" [] [Tag "input" [("type", "text")] []];
        Tag "button" [] [NavigableString "Go"]]]
  /\ find_all text_inputs
       (P "<div><span><input type='text'></span><button>Go</button></div>")
     = [[0; 0; 0]]
  /\ find_all (named ["button"])
       (P "<div><span><input type='text'></span><button>Go</button></div>")
     = [[0; 1]]
  /\ locate_form
       (P "<div><span><input type='text'></span><button>Go</button></div>")
     = None
  /\ extract_form P (Some "o") (Some "n")
       "<div><span><input type='text'></span><button>Go</button></div>"
     = Returns (default_form_head ++ "o" ++ "/" ++ "n" ++ default_form_tail,
                "<div><span><input type='text'></span><button>Go</button></div>").
Proof. vm_compute. repeat split; reflexivity. Qed.

Lemma input_parent_witness :
  (find (named ["form"]) (P page2) = None
   /\ In [1; 0] (find_all text_inputs (P page2))
   /\ In (parent [1; 0] ++ [1])%list (find_all (named ["button"]) (P page2)))
  /\ exists t,
       get (P page2) [1]  = Some t
       /\ extract_form P None None page2
          = Returns (to_string t, "<h1>T</h1>").
Proof.
  assert (H1 : find (named ["form"]) (P page2) = None) by (vm_compute; reflexivity).
  assert (H2 : In [1; 0] (find_all text_inputs (P page2)))
    by (vm_compute; left; reflexivity).
  assert (H3 : In (parent [1; 0] ++ [1])%list (find_all (named ["button"]) (P page2)))
    by (vm_compute; left; reflexivity).
  split; [split; [exact H1|split; [exact H2|exact H3]]|].
  destruct (input_parent_fragment P None None page2 [1; 0] [1] H1 H2 H3)
    as (q0 & b0 & t & Hq & _ & _ & G & E).
  - discriminate.
  - intros q' H. vm_compute in H. destruct H as [<-|[]]. discriminate.
  - vm_compute in Hq. destruct Hq as [<-|[]].
    exists t. split; [exact G|]. rewrite E. f_equal.
Defined.

(** C7: a h4 heading is dropped, and a div inside a span is recovered. *)
Lemma bare_candidate_counterexample :
  add_form_back P "<form></form>" "<h4>x</h4>"
  = Returns "<html><body><form></form></body></html>"
  /\ add_form_back P "<form></form>" "<span><div>a</div></span>"
     = Returns "<html><body><form></form><div>a</div></body></html>".
Proof. vm_compute. split; reflexivity. Qed.

Lemma bare_candidate_witness :
  (P skeleton_html = skeleton
   /\ find (named ["body"]) (P "<div>hi</div>") = None
   /\ find (named ["html"]) (P "<div>hi</div>") = None)
  /\ add_form_back P "<form></form>" "<div>hi</div>"
     = Returns "<html><body><form></form><div>hi</div></body></html>".
Proof.
  split; [repeat split; vm_compute; reflexivity|].
  rewrite (bare_candidate P "<form></form>" "<div>hi</div>" eq_refl eq_refl eq_refl).
  vm_compute. reflexivity.
Defined.

Lemma default_fragment_witness :
  (find (named ["form"]) (P "<p>x</p>") = None
   /\ find_all text_inputs (P "<p>x</p>") = []
   /\ Str.occurs "REPO_NAME" "octo" = false)
  /\ exists before after,
       extract_form P (Some "octo") (Some "site") "<p>x</p>"
       = Returns (before ++ "<form action=" ++ dq
                    ++ "https://github.com/octo/site/issues/new" ++ dq ++ after,
                  "<p>x</p>").
Proof.
  split; [repeat split; vm_compute; reflexivity|].
  exact (default_fragment P "octo" "site" "<p>x</p>" eq_refl (or_introl eq_refl)
           eq_refl).
Defined.


Lemma reinsert_body_witness :
  find (named ["body"]) (P page3) = Some [0; 1]
  /\ add_form_back P "<form></form>" page3
     = Returns
         "<html><head><title>T</title></head><body><form></form><p>x</p></body></html>".
Proof.
  assert (H : find (named ["body"]) (P page3) = Some [0; 1])
    by (vm_compute; reflexivity).
  split; [assumption|].
  destruct (reinsert_body_frame P "<form></form>" page3 [0; 1] H)
    as (ats & cs & s1 & s2 & E & _).
  rewrite E. vm_compute. reflexivity.
Defined.

(** C10: a block tagged htmlbars loses the first four letters of its tag. *)
Lemma language_word_counterexample :
  extract_html_from_llm_response P ("```htmlbars" ++ nl ++ "x" ++ nl ++ "```")
  = Returns ("bars" ++ nl ++ "x")
  /\ Str.startswith "htmlbars" ("bars" ++ nl ++ "x") = false.
Proof. vm_compute. split; reflexivity. Qed.

Lemma language_word_witness :
  (Str.occurs Fence.fence (EmptyString ++ "``") = false
   /\ Str.occurs Fence.fence (("css" ++ nl ++ "a{}" ++ nl) ++ "``") = false
   /\ Str.no_space "css" = true
   /\ Str.startswith "html" ("css" ++ nl ++ "a{}" ++ nl) = false)
  /\ extract_html_from_llm_response P
       (EmptyString ++ "```" ++ "css" ++ (nl ++ "a{}" ++ nl) ++ "```" ++ " done")
     = Returns ("css" ++ nl ++ "a{}").
Proof.
  split; [repeat split; vm_compute; reflexivity|].
  change "```" with Fence.fence.
  destruct (language_word_kept P EmptyString "css" (nl ++ "a{}" ++ nl) " done"
              eq_refl eq_refl ltac:(discriminate) eq_refl eq_refl) as [E _].
  rewrite E. vm_compute. reflexivity.
Defined.

(** The response extractor on a raw body, on prose, and on the reply of
    the end-to-end scenario. *)
Example extract_raw_body :
  extract_html_from_llm_response P "  <body>hi</body>  " = Returns "<body>hi</body>".
Proof. vm_compute. reflexivity. Qed.

Example extract_prose :
  extract_html_from_llm_response P "Sorry, I cannot help with that."
  = Raises HTMLExtractionError.
Proof. vm_compute. reflexivity. Qed.

Example end_to_end :
  extract_html_from_llm_response P
    ("```html" ++ nl ++ "<html><body><p>blue</p></body></html>" ++ nl ++ "```")
  = Returns "<html><body><p>blue</p></body></html>"
  /\ add_form_back P "<form id='prompt-form'><button>Go</button></form>"
       "<html><body><p>blue</p></body></html>"
     = Returns ("<html><body><form id=" ++ dq ++ "prompt-form" ++ dq
                  ++ "><button>Go</button></form><p>blue</p></body></html>").
Proof. vm_compute. split; reflexivity. Qed.

(** *** Further properties, on concrete inputs *)

Lemma extracted_is_stripped_witness :
  extract_html_from_llm_response P "  <p>x</p> " = Returns "<p>x</p>"
  /\ Str.strip "<p>x</p>" = "<p>x</p>".
Proof.
  assert (H : extract_html_from_llm_response P "  <p>x</p> " = Returns "<p>x</p>")
    by (vm_compute; reflexivity).
  split; [exact H|exact (extracted_is_stripped P _ _ H)].
Defined.

Lemma fenced_reply_returns_witness :
  Fence.has_fence "a```b```c"
  /\ exists r, forall parse,
       extract_html_from_llm_response parse "a```b```c" = Returns r.
Proof.
  assert (H : Fence.has_fence "a```b```c")
    by (exists "a", "b", "c"; reflexivity).
  split; [exact H|exact (fenced_reply_returns _ H)].
Defined.

Lemma extract_form_partition_witness :
  (find (named ["form"]) (P page1) = Some [0; 0; 1]
   /\ forall pn pats pcs,
        get (P page1) (parent [0; 0; 1]) = Some (Tag pn pats pcs) ->
        can_be_empty_element pn = false)
  /\ exists form_html s1 s2,
       extract_form P None None page1 = Returns (form_html, s1 ++ s2)
       /\ soup_to_string (P page1) = s1 ++ form_html ++ s2.
Proof.
  assert (H1 : find (named ["form"]) (P page1) = Some [0; 0; 1])
    by (vm_compute; reflexivity).
  assert (H2 : forall pn pats pcs,
             get (P page1) (parent [0; 0; 1]) = Some (Tag pn pats pcs) ->
             can_be_empty_element pn = false).
  { intros pn pats pcs G. vm_compute in G. injection G as <- _ _.
    vm_compute. reflexivity. }
  split; [split; [exact H1|exact H2]|].
  exact (extract_form_partition P None None page1 [0; 0; 1] H1 H2).
Defined.

Lemma top_level_input_witness :
  (find (named ["form"]) (P page4) = None
   /\ find_all text_inputs (P page4) = [[0]]
   /\ parent [0] = []
   /\ In [1] (find_all (named ["button"]) (P page4)))
  /\ extract_form P None None page4
     = Returns (soup_to_string (P page4), soup_to_string (P page4)).
Proof.
  assert (H1 : find (named ["form"]) (P page4) = None)
    by (vm_compute; reflexivity).
  assert (H2 : find_all text_inputs (P page4) = [[0]])
    by (vm_compute; reflexivity).
  assert (H3 : In [1] (find_all (named ["button"]) (P page4)))
    by (vm_compute; left; reflexivity).
  split; [split; [exact H1|split; [exact H2|split; [reflexivity|exact H3]]]|].
  exact (top_level_input_takes_page P None None page4 [0] [] [1] H1 H2 eq_refl H3).
Defined.

Lemma reinsert_html_frame_witness :
  (find (named ["body"]) (P "<html><head></head></html>") = None
   /\ find (named ["html"]) (P "<html><head></head></html>") = Some [0])
  /\ add_form_back P "<form></form>" "<html><head></head></html>"
     = Returns "<html><head></head><body><form></form></body></html>".
Proof.
  assert (H1 : find (named ["body"]) (P "<html><head></head></html>") = None)
    by (vm_compute; reflexivity).
  assert (H2 : find (named ["html"]) (P "<html><head></head></html>") = Some [0])
    by (vm_compute; reflexivity).
  split; [split; [exact H1|exact H2]|].
  destruct (reinsert_html_frame P "<form></form>" "<html><head></head></html>"
              [0] H1 H2) as (ats & cs & s1 & s2 & E & _).
  rewrite E. vm_compute. reflexivity.
Defined.

Lemma add_form_back_returns_witness :
  P skeleton_html = skeleton
  /\ exists out, add_form_back P "<form></form>" "hello" = Returns out.
Proof.
  assert (H : P skeleton_html = skeleton) by (vm_compute; reflexivity).
  split; [exact H|exact (add_form_back_returns P "<form></form>" "hello" H)].
Defined.

Lemma prompt_block_witness :
  (Str.occurs Fence.fence (fmt (VStr "make it blue")) = false
   /\ Str.occurs Fence.fence "<p>x</p>" = false)
  /\ extract_html_from_llm_response P
       (create_prompt "<p>x</p>" (VStr "make it blue"))
     = Returns "<p>x</p>".
Proof.
  split; [split; vm_compute; reflexivity|].
  rewrite (prompt_block_read_back P "<p>x</p>" (VStr "make it blue")
             eq_refl eq_refl).
  vm_compute. reflexivity.
Defined.

End Examples.

(** ** Runs of the driver, on concrete collaborators *)

Module Runs.
Import Pages.

Lemma exit_zero_run_witness :
  run_ok = (fst run_ok, Done 0)
  /\ exists final,
       add_form_back P "<form><button>Go</button></form>"
         "<html><body><p>blue</p></body></html>" = Returns final
       /\ nth_error (fst run_ok) 3 = Some (Commit final "abc", true)
       /\ List.length (fst run_ok) = 6.
Proof.
  assert (H : run_ok = (fst run_ok, Done 0)) by (vm_compute; reflexivity).
  split; [exact H|].
  destruct (exit_zero_run P _ _ _ _ _ _ _ _ _ _ _ _ _ H)
    as (issue & instr & html & sha & form_html & rest & reply & new_html
        & final & commit_sha & _ & _ & E3 & E4 & E5 & E6 & E7 & _ & Et).
  injection E3 as <- <-. injection E5 as <-.
  assert (F : form_html = "<form><button>Go</button></form>")
    by (vm_compute in E4; congruence).
  assert (N : new_html = "<html><body><p>blue</p></body></html>").
  { destruct E6 as [E6|[E6 _]]; vm_compute in E6; congruence. }
  subst form_html new_html. exists final.
  split; [exact E7|]. rewrite Et. split; reflexivity.
Defined.

Lemma commit_is_reinserted_witness :
  (run_no_commit = (fst run_no_commit, Done 1)
   /\ In (Commit
            ("<html><body><form><button>Go</button></form><p>blue</p></body></html>")
            "abc", false)
         (fst run_no_commit))
  /\ exists form_html new_html,
       add_form_back P form_html new_html
       = Returns "<html><body><form><button>Go</button></form><p>blue</p></body></html>".
Proof.
  assert (H1 : run_no_commit = (fst run_no_commit, Done 1))
    by (vm_compute; reflexivity).
  assert (H2 : In (Commit
            ("<html><body><form><button>Go</button></form><p>blue</p></body></html>")
            "abc", false)
         (fst run_no_commit)).
  { vm_compute. do 3 right. left. reflexivity. }
  split; [split; [exact H1|exact H2]|].
  destruct (commit_is_reinserted P _ _ _ _ _ _ _ _ _ _ _ _ _ _ _ _ _ H1 H2)
    as (instr & html & form_html & rest & reply & new_html & _ & _ & _ & _ & E).
  exists form_html, new_html. exact E.
Defined.

Lemma exit_one_run_witness :
  run_no_completion = (fst run_no_completion, Done 1)
  /\ exists t' c message,
       fst run_no_completion
       = (t' ++ [(c, false); (Comment (error_comment "x" message), true)])%list
       /\ Forall (fun x => snd x = true) t'.
Proof.
  assert (H : run_no_completion = (fst run_no_completion, Done 1))
    by (vm_compute; reflexivity).
  split; [exact H|].
  exact (exit_one_run P _ _ _ _ _ _ _ _ _ _ _ _ _ H).
Defined.

End Runs.

